(** * Email-processor: the IMAP-to-MongoDB sweep of [email_processor.py]

    A shallow embedding of [EmailProcessor] and the proofs of its
    behavioural contracts: the bounded-retry connection routine, the
    message normaliser, the upsert into the collection and the sweep
    that ties them together.

    Python text ([str]) is a list of code points, [bytes] a list of
    octets.  Exceptions are values: a computation that may raise returns
    a [result].  Calls into the IMAP server, the MongoDB server and the
    clock are answered by an [Env] record (one oracle per call site);
    calls into the Python library whose code is not part of the
    repository ([decode_header], the codec registry, [parseaddr],
    [parsedate_tz], ...) go through a [Runtime] record. *)

From Stdlib Require Import ZArith NArith Lia List Bool String Ascii.
From stdpp Require Import base option list gmap strings.

Local Open Scope N_scope.

(** ** Exceptions *)

(** The exception classes the program names or can meet.  Only classes
    below [Exception] are modelled, so [except Exception] catches all of
    them ([KeyboardInterrupt] and [SystemExit] are outside the model). *)
Inductive exn_class :=
  | KeyError | IndexError | LookupError
  | UnicodeDecodeError | UnicodeEncodeError | ValueError
  | OverflowError | OSError | ConnectionError
  | TypeError | AttributeError
  | HeaderParseError
  | IMAP4_error
  | PyMongoError | ServerSelectionTimeoutError
  | OtherException.

Global Instance exn_class_eq_dec : EqDecision exn_class.
Proof. solve_decision. Defined.

(** The direct base class inside the modelled hierarchy ([None]: the
    base is [Exception] itself). *)
Definition base_class (c : exn_class) : option exn_class :=
  match c with
  | KeyError | IndexError => Some LookupError
  | UnicodeDecodeError | UnicodeEncodeError => Some ValueError
  | ConnectionError => Some OSError
  | ServerSelectionTimeoutError => Some PyMongoError
  | _ => None
  end.

(** [issubclass c d]; the hierarchy above has depth two. *)
Definition issubclass (c d : exn_class) : bool :=
  bool_decide (c = d) || bool_decide (base_class c = Some d).

(** An exception object: its class and the text [str(e)] gives. *)
Record exn := Exn { exn_cls : exn_class; exn_text : list N }.

Definition isinstance (e : exn) (d : exn_class) : bool :=
  issubclass (exn_cls e) d.

Inductive result (A : Type) :=
  | Ok (a : A)
  | Raise (e : exn).
Arguments Ok {A} a.
Arguments Raise {A} e.

Global Instance result_ret : MRet result := fun A a => Ok a.
Global Instance result_bind : MBind result := fun A B k r =>
  match r with
  | Ok a => k a
  | Raise e => Raise e
  end.
Global Instance result_fmap : FMap result := fun A B f r =>
  match r with
  | Ok a => Ok (f a)
  | Raise e => Raise e
  end.

(** ** Text and bytes *)

Abbreviation pystr := (list N) (only parsing).
Abbreviation bytes := (list N) (only parsing).

(** A string literal of the source, as the list of its code points. *)
Definition lit (s : string) : pystr :=
  map N_of_ascii (list_ascii_of_string s).

(** [str.lower()] on the ASCII letters, which is all a header name
    contains. *)
Definition lower_cp (c : N) : N :=
  if (65 <=? c) && (c <=? 90) then c + 32 else c.
Definition lower (s : list N) : list N := map lower_cp s.

(** *** The UTF-8 codec *)

Definition is_surrogate (c : N) : bool := (0xD800 <=? c) && (c <=? 0xDFFF).

(** The octets of one code point; a lone surrogate (and a value past
    U+10FFFF, which no [str] holds) has no encoding. *)
Definition utf8_encode_cp (c : N) : option bytes :=
  if c <? 0x80 then Some [c]
  else if c <? 0x800 then Some [0xC0 + c / 64; 0x80 + c mod 64]
  else if c <? 0x10000 then
    if is_surrogate c then None
    else Some [0xE0 + c / 4096; 0x80 + (c / 64) mod 64; 0x80 + c mod 64]
  else if c <? 0x110000 then
    Some [0xF0 + c / 262144; 0x80 + (c / 4096) mod 64;
          0x80 + (c / 64) mod 64; 0x80 + c mod 64]
  else None.

(** [s.encode('utf-8')]: the strict error handler, so a code point
    without encoding raises [UnicodeEncodeError]. *)
Fixpoint utf8_encode (s : pystr) : result bytes :=
  match s with
  | [] => Ok []
  | c :: s' =>
      match utf8_encode_cp c with
      | None => Raise (Exn UnicodeEncodeError (lit "surrogates not allowed"))
      | Some bs =>
          match utf8_encode s' with
          | Ok rest => Ok (bs ++ rest)
          | Raise e => Raise e
          end
      end
  end.

(** The [errors] argument of [bytes.decode]. *)
Inductive errors := strict | replace.

Definition in_range (lo hi b : N) : bool := (lo <=? b) && (b <=? hi).
Definition is_cont (b : N) : bool := in_range 0x80 0xBF b.

(** The range the second octet must lie in, by lead octet (Unicode
    table 3-7): it excludes overlong forms, surrogates and values past
    U+10FFFF. *)
Definition second_ok (b1 b2 : N) : bool :=
  if b1 =? 0xE0 then in_range 0xA0 0xBF b2
  else if b1 =? 0xED then in_range 0x80 0x9F b2
  else if b1 =? 0xF0 then in_range 0x90 0xBF b2
  else if b1 =? 0xF4 then in_range 0x80 0x8F b2
  else is_cont b2.

Definition replacement_character : N := 0xFFFD.

(** [b.decode('utf-8', errors=h)].  At an ill-formed sequence the strict
    handler raises; the replace handler emits U+FFFD for the maximal
    well-formed prefix read so far and resumes at the offending octet. *)
Fixpoint utf8_decode (h : errors) (b : bytes) : result pystr :=
  let bad (resume : result pystr) : result pystr :=
    match h with
    | strict => Raise (Exn UnicodeDecodeError (lit "invalid utf-8"))
    | replace =>
        match resume with
        | Ok s => Ok (replacement_character :: s)
        | Raise e => Raise e
        end
    end in
  let good (c : N) (next : result pystr) : result pystr :=
    match next with
    | Ok s => Ok (c :: s)
    | Raise e => Raise e
    end in
  match b with
  | [] => Ok []
  | b1 :: r1 =>
      if b1 <? 0x80 then good b1 (utf8_decode h r1)
      else if in_range 0xC2 0xDF b1 then
        match r1 with
        | b2 :: r2 =>
            if is_cont b2
            then good ((b1 - 0xC0) * 64 + (b2 - 0x80)) (utf8_decode h r2)
            else bad (utf8_decode h r1)
        | [] => bad (utf8_decode h r1)
        end
      else if in_range 0xE0 0xEF b1 then
        match r1 with
        | b2 :: r2 =>
            if second_ok b1 b2 then
              match r2 with
              | b3 :: r3 =>
                  if is_cont b3
                  then good ((b1 - 0xE0) * 4096 + (b2 - 0x80) * 64 + (b3 - 0x80))
                            (utf8_decode h r3)
                  else bad (utf8_decode h r2)
              | [] => bad (utf8_decode h r2)
              end
            else bad (utf8_decode h r1)
        | [] => bad (utf8_decode h r1)
        end
      else if in_range 0xF0 0xF4 b1 then
        match r1 with
        | b2 :: r2 =>
            if second_ok b1 b2 then
              match r2 with
              | b3 :: r3 =>
                  if is_cont b3 then
                    match r3 with
                    | b4 :: r4 =>
                        if is_cont b4
                        then good ((b1 - 0xF0) * 262144 + (b2 - 0x80) * 4096
                                   + (b3 - 0x80) * 64 + (b4 - 0x80))
                                  (utf8_decode h r4)
                        else bad (utf8_decode h r3)
                    | [] => bad (utf8_decode h r3)
                    end
                  else bad (utf8_decode h r2)
              | [] => bad (utf8_decode h r2)
              end
            else bad (utf8_decode h r1)
        | [] => bad (utf8_decode h r1)
        end
      else bad (utf8_decode h r1)
  end.

(** The idiom of the source: [s.encode('utf-8').decode('utf-8',
    errors='replace')]. *)
Definition reencode (s : pystr) : result pystr :=
  b ← utf8_encode s; utf8_decode replace b.

(** ** Time *)

(** A float holding a POSIX time ([time.time()], [mktime_tz],
    [datetime.timestamp()]), as the number of microseconds it denotes;
    a naive local [datetime], as microseconds on the local time line.
    The conversions between the two and the rendering of a float by an
    f-string belong to the [Runtime]. *)
Record pyfloat := Float { float_micros : Z }.
Record datetime := Datetime { datetime_micros : Z }.

Global Instance pyfloat_eq_dec : EqDecision pyfloat.
Proof. solve_decision. Defined.
Global Instance datetime_eq_dec : EqDecision datetime.
Proof. solve_decision. Defined.


(** The 10-tuple [parsedate_tz] returns; its last field is the zone
    offset in seconds.  Such a tuple is never empty, hence truthy. *)
Record date_tuple := DateTuple {
  dt_year : Z; dt_month : Z; dt_day : Z;
  dt_hour : Z; dt_minute : Z; dt_second : Z;
  dt_tzoffset : Z
}.

(** ** Messages *)

(** An [email.message.Message], as far as the program looks at it: the
    header fields in order. *)
Definition Message := list (pystr * pystr).

(** [Message.get(name)]: the first field whose name matches, ignoring
    case; [None] when there is none (the caller's [failobj] is applied
    with [default]). *)
Fixpoint get (m : Message) (name : pystr) : option pystr :=
  match m with
  | [] => None
  | (k, v) :: m' =>
      if bool_decide (lower k = lower name) then Some v else get m' name
  end.

(** ** The library calls *)

(** The first component of a pair returned by [decode_header]: [bytes]
    for a header with encoded words, the header itself ([str]) for one
    without. *)
Inductive segment :=
  | SegBytes (b : bytes)
  | SegStr (s : pystr).

Record Runtime := {
  (** [email.header.decode_header] *)
  decode_header : pystr -> result (list (segment * option pystr));
  (** [str(b, charset)]: the codec registry, strict error handler *)
  str_decode : bytes -> pystr -> result pystr;
  (** [email.utils.parseaddr]: (display name, address) *)
  parseaddr : pystr -> pystr * pystr;
  (** [email.utils.parsedate_tz] *)
  parsedate_tz : option pystr -> option date_tuple;
  (** [email.utils.mktime_tz] *)
  mktime_tz : date_tuple -> result pyfloat;
  (** [datetime.fromtimestamp] *)
  fromtimestamp : pyfloat -> result datetime;
  (** [datetime.timestamp] *)
  timestamp_of : datetime -> result pyfloat;
  (** the text an f-string gives for a float *)
  float_str : pyfloat -> pystr;
  (** [email.message_from_bytes] *)
  message_from_bytes : bytes -> Message
}.

(** ** The log and the calls to the outside *)

Inductive level := INFO | WARNING | ERROR.

(** The messages the program logs, with the values their f-strings
    interpolate. *)
Inductive log_msg :=
  | ConnectedToEmailServer        (* "Successfully connected to email server" *)
  | IMAPError (e : exn)           (* "IMAP error: {e}" *)
  | UnexpectedError (e : exn)     (* "Unexpected error: {e}" *)
  | RetryingConnection (attempt max : nat)
                                  (* "Retrying connection... (Attempt {a}/{m})" *)
  | MalformedEmail (e : exn)      (* "Malformed email missing key {e}: Skipping this email" *)
  | ErrorProcessingMessage (e : exn)
                                  (* "Error processing email message: {e}" *)
  | SavedEmail (sender : list N)  (* "Saved email from {sender} to MongoDB" *)
  | ErrorSaving (e : exn)         (* "Error saving email to database: {e}" *)
  | FailedSearch                  (* "Failed to search for unread emails." *)
  | NoUnreadEmails                (* "No unread emails in the inbox." *)
  | FailedFetch (email_id : list N)
                                  (* "Failed to fetch email with ID {email_id}" *)
  | ProcessedEmail (subject : list N)
                                  (* "Processed email: {subject}" *)
  | ConnectivityIssue (e : exn)   (* "Connectivity issue: {e}" *)
  | ErrorProcessingEmails (e : exn).
                                  (* "Error processing emails: {e}" *)

(** An open IMAP session, named by the attempt that opened it. *)
Record session := Session { opened_at : nat }.

Inductive event :=
  | Log (l : level) (m : log_msg)
  | Sleep (seconds : nat)
  | Connect (attempt : nat)       (* IMAP4_SSL(...) and login *)
  | Select (s : session)
  | Search (s : session)
  | Fetch (s : session) (email_id : list N)
  | Logout (s : session).

Global Instance exn_eq_dec : EqDecision exn.
Proof. solve_decision. Defined.
Global Instance level_eq_dec : EqDecision level.
Proof. solve_decision. Defined.
Global Instance log_msg_eq_dec : EqDecision log_msg.
Proof. solve_decision. Defined.
Global Instance session_eq_dec : EqDecision session.
Proof. solve_decision. Defined.
Global Instance event_eq_dec : EqDecision event.
Proof. solve_decision. Defined.

(** ** process_email *)

(** The dict [process_email] returns: always these four keys. *)
Record MailRecord := {
  message_id : pystr;
  sender : pystr;
  subject : pystr;
  timestamp : datetime
}.

(** Truthiness of a [str]. *)
Definition truthy (s : pystr) : bool :=
  match s with [] => false | _ => true end.

(** [t[1] or 'utf-8']: a missing and an empty charset both give the
    default. *)
Definition charset_or_utf8 (cs : option pystr) : pystr :=
  match cs with
  | Some (c :: cs') => c :: cs'
  | _ => lit "utf-8"
  end.

(** One element of the generator inside the join:
    [str(t[0], t[1] or 'utf-8') if isinstance(t[0], bytes) else str(t[0])]. *)
Definition decode_segment (rt : Runtime) (t : segment * option pystr)
  : result pystr :=
  match t.1 with
  | SegBytes b => str_decode rt b (charset_or_utf8 t.2)
  | SegStr s => Ok s
  end.

(** ["".join(... for t in decoded_list)]: the elements are produced in
    list order and the first one that raises ends the join. *)
Fixpoint join_segments (rt : Runtime)
    (decoded_list : list (segment * option pystr)) : result pystr :=
  match decoded_list with
  | [] => Ok []
  | t :: rest =>
      s ← decode_segment rt t;
      r ← join_segments rt rest;
      Ok (s ++ r)
  end.

Definition no_subject : pystr := lit "[No subject]".

(** Lines 75-82. *)
Definition extract_subject (rt : Runtime) (m : Message) : result pystr :=
  let subject := default no_subject (get m (lit "subject")) in
  if truthy subject then
    decoded_list ← decode_header rt subject;
    joined ← join_segments rt decoded_list;
    reencode joined
  else Ok subject.

(** Lines 84-85. *)
Definition extract_sender (rt : Runtime) (m : Message) : result pystr :=
  reencode (parseaddr rt (default [] (get m (lit "from")))).2.

(** Lines 87-90; [now] is what [time.time()] answers, asked only when
    the date does not parse. *)
Definition extract_timestamp (rt : Runtime) (now : pyfloat) (m : Message)
  : result datetime :=
  let date_tuple := parsedate_tz rt (get m (lit "date")) in
  secs ← match date_tuple with
         | Some d => mktime_tz rt d
         | None => Ok now
         end;
  fromtimestamp rt secs.

(** The body of the [try] (lines 75-97).  The default of the last [get]
    is an argument, so the f-string is evaluated whether or not the
    header is there. *)
Definition process_email_body (rt : Runtime) (now : pyfloat) (m : Message)
  : result MailRecord :=
  subject ← extract_subject rt m;
  sender ← extract_sender rt m;
  timestamp ← extract_timestamp rt now m;
  secs ← timestamp_of rt timestamp;
  let no_id := lit "NO_ID_" ++ float_str rt secs in
  Ok {| message_id := default no_id (get m (lit "message-id"));
        sender := sender;
        subject := subject;
        timestamp := timestamp |}.

(** [process_email] with its two handlers; the result is the log lines
    written and the dict, or [None]. *)
Definition process_email (rt : Runtime) (now : pyfloat) (m : Message)
  : list event * option MailRecord :=
  match process_email_body rt now m with
  | Ok email_data => ([], Some email_data)
  | Raise e =>
      if isinstance e KeyError
      then ([Log WARNING (MalformedEmail e)], None)
      else ([Log ERROR (ErrorProcessingMessage e)], None)
  end.

(** ** The collection *)

Inductive value :=
  | VStr (s : pystr)
  | VDate (d : datetime).

Global Instance value_eq_dec : EqDecision value.
Proof. solve_decision. Defined.

(** A MongoDB collection: its documents in natural order, each a finite
    map from field names to values (the generated [_id] is left out). *)
Abbreviation document := (gmap string value) (only parsing).

Record state := State {
  db : list document;
  trace : list event
}.

Definition emit (evs : list event) (st : state) : state :=
  {| db := db st; trace := trace st ++ evs |}.

(** The filter [{'message_id': id}]. *)
Definition key_of (doc : document) : option value :=
  doc !! "message_id".
Definition matches (id : pystr) (doc : document) : bool :=
  bool_decide (key_of doc = Some (VStr id)).

(** [$set] on the first document the filter selects; [None] when no
    document matches. *)
Fixpoint set_first (id : list N) (fields : document)
    (c : list document) : option (list document) :=
  match c with
  | [] => None
  | doc :: c' =>
      if matches id doc then Some ((fields ∪ doc) :: c')
      else (fun r => doc :: r) <$> set_first id fields c'
  end.

(** [update_one({'message_id': id}, {'$set': fields}, upsert=True)]:
    without a match, the document inserted is the filter's equality
    with [$set] applied. *)
Definition update_one (id : list N) (fields : document)
    (c : list document) : list document :=
  match set_first id fields c with
  | Some c' => c'
  | None => c ++ [fields ∪ {[ "message_id" := VStr id ]}]
  end.

(** Lines 109-115. *)
Definition email_dict (email_data : MailRecord) (now : datetime)
  : document :=
  <["message_id" := VStr (message_id email_data)]>
  (<["sender" := VStr (sender email_data)]>
  (<["subject" := VStr (subject email_data)]>
  (<["timestamp" := VDate (timestamp email_data)]>
  (<["processed_at" := VDate now]> ∅)))).

(** [save_to_database].  [now] is what [datetime.now()] answers and
    [reply] what the server answers to the update: [None] when it is
    acknowledged, the exception otherwise (the collection is then left
    as it was).  A [PyMongoError] is logged and raised again; any other
    exception passes through the method untouched. *)
Definition save_to_database (now : datetime) (reply : option exn)
    (email_data : MailRecord) (st : state) : state * result unit :=
  match reply with
  | None =>
      ({| db := update_one (message_id email_data)
                  (email_dict email_data now) (db st);
          trace := trace st ++ [Log INFO (SavedEmail (sender email_data))] |},
       Ok tt)
  | Some e =>
      if isinstance e PyMongoError
      then (emit [Log ERROR (ErrorSaving e)] st, Raise e)
      else (st, Raise e)
  end.

(** The index [create_index('message_id', unique=True)] declares: no two
    documents carry the same [message_id]. *)
Definition unique_index (c : list document) : Prop :=
  NoDup (map key_of c).

(** The documents a [find({'message_id': id})] returns. *)
Definition find (id : list N) (c : list document)
  : list document :=
  List.filter (matches id) c.

(** ** connect_to_email_server *)

(** What the servers and the clock answer.  The IMAP answers are per
    session; the answers during the iteration for one message are
    indexed by its id. *)
Record Env := {
  (** attempt number -> [IMAP4_SSL(...)] then [login] *)
  connect : nat -> result session;
  select : session -> result unit;
  (** (status, messages) *)
  search : session -> result (pystr * list (option bytes));
  (** (res, msg); [msg] is a list of pairs, bare bytes or [None] *)
  fetch : session -> bytes -> result (pystr * list (option (bytes * bytes)));
  logout : session -> result unit;
  time_time : bytes -> pyfloat;
  datetime_now : bytes -> datetime;
  update_reply : bytes -> option exn
}.

Definition max_retries : nat := 3.
Definition retry_delay : nat := 5.

(** The [for attempt in range(max_retries)] loop from [attempt] on, with
    [remaining] iterations left.  A loop that ran out would fall off
    the end of the method, which returns [None]. *)
Fixpoint connect_loop (env : Env) (attempt remaining : nat)
  : list event * result (option session) :=
  match remaining with
  | O => ([], Ok None)
  | S remaining' =>
      match connect env attempt with
      | Ok mail =>
          ([Connect attempt; Log INFO ConnectedToEmailServer], Ok (Some mail))
      | Raise e =>
          let failed :=
            [Connect attempt;
             Log ERROR (if isinstance e IMAP4_error
                        then IMAPError e else UnexpectedError e)] in
          if (attempt <? max_retries - 1)%nat then
            let '(evs, r) := connect_loop env (S attempt) remaining' in
            (failed
               ++ [Log INFO (RetryingConnection (attempt + 2) max_retries);
                   Sleep retry_delay]
               ++ evs, r)
          else
            (failed,
             Raise (Exn ConnectionError
                      (lit "Failed to connect to email server after max retries")))
      end
  end.

Definition connect_to_email_server (env : Env)
  : list event * result (option session) :=
  connect_loop env 0 max_retries.

(** ** process_unread_emails *)

(** [l[0]] *)
Definition first_item {A} (l : list A) : result A :=
  match l with
  | [] => Raise (Exn IndexError (lit "list index out of range"))
  | x :: _ => Ok x
  end.

(** [bytes.split()]: the runs between ASCII white space. *)
Definition is_space (b : N) : bool := (b =? 32) || in_range 9 13 b.

Fixpoint split_from (word : list N) (b : list N) : list (list N) :=
  match b with
  | [] => match word with [] => [] | _ => [rev word] end
  | x :: b' =>
      if is_space x then
        match word with
        | [] => split_from [] b'
        | _ => rev word :: split_from [] b'
        end
      else split_from (x :: word) b'
  end.

Definition split (b : bytes) : list bytes := split_from [] b.

(** [msg[0][1]] of a fetch answer. *)
Definition raw_message (msg : list (option (bytes * bytes)))
  : result bytes :=
  item ← first_item msg;
  match item with
  | Some (_, raw) => Ok raw
  | None => Raise (Exn TypeError (lit "'NoneType' object is not subscriptable"))
  end.

(** The [for email_id in email_ids] loop (lines 141-151). *)
Fixpoint process_ids (env : Env) (rt : Runtime) (mail : session)
    (email_ids : list bytes) (st : state) : state * result unit :=
  match email_ids with
  | [] => (st, Ok tt)
  | email_id :: rest =>
      let st := emit [Fetch mail email_id] st in
      match fetch env mail email_id with
      | Raise e => (st, Raise e)
      | Ok (res, msg) =>
          if negb (bool_decide (res = lit "OK")) then
            process_ids env rt mail rest
              (emit [Log WARNING (FailedFetch email_id)] st)
          else
            match raw_message msg with
            | Raise e => (st, Raise e)
            | Ok raw =>
                let email_message := message_from_bytes rt raw in
                let '(evs, email_data) :=
                  process_email rt (time_time env email_id) email_message in
                let st := emit evs st in
                match email_data with
                | None => process_ids env rt mail rest st
                | Some email_data =>
                    match save_to_database (datetime_now env email_id)
                            (update_reply env email_id) email_data st with
                    | (st, Raise e) => (st, Raise e)
                    | (st, Ok _) =>
                        process_ids env rt mail rest
                          (emit [Log INFO (ProcessedEmail (subject email_data))] st)
                    end
                end
            end
      end
  end.

(** The [try] body after the connection is there (lines 130-151).
    [mail] is the value [connect_to_email_server] returned. *)
Definition sweep (env : Env) (rt : Runtime) (mail : option session)
    (st : state) : state * result unit :=
  match mail with
  | None =>
      (st, Raise (Exn AttributeError
                    (lit "'NoneType' object has no attribute 'select'")))
  | Some mail =>
      let st := emit [Select mail] st in
      match select env mail with
      | Raise e => (st, Raise e)
      | Ok _ =>
          let st := emit [Search mail] st in
          match search env mail with
          | Raise e => (st, Raise e)
          | Ok (status, messages) =>
              if negb (bool_decide (status = lit "OK")) then
                (emit [Log WARNING FailedSearch] st, Ok tt)
              else
                match first_item messages with
                | Raise e => (st, Raise e)
                | Ok None =>
                    (st, Raise (Exn AttributeError
                       (lit "'NoneType' object has no attribute 'split'")))
                | Ok (Some ids) =>
                    let email_ids := split ids in
                    match email_ids with
                    | [] => (emit [Log INFO NoUnreadEmails] st, Ok tt)
                    | _ => process_ids env rt mail email_ids st
                    end
                end
          end
      end
  end.

(** The two handlers of [process_unread_emails] (lines 152-155). *)
Definition handler (e : exn) : event :=
  if isinstance e ConnectionError
  then Log ERROR (ConnectivityIssue e)
  else Log ERROR (ErrorProcessingEmails e).

(** [process_unread_emails]: the [try], its handlers and the [finally].
    The result is what the method does at its end: [Ok tt] when it
    returns, [Raise e] when an exception leaves it. *)
Definition process_unread_emails (env : Env) (rt : Runtime) (st : state)
  : state * result unit :=
  let '(evs, r) := connect_to_email_server env in
  let st := emit evs st in
  match r with
  | Raise e =>
      (* [mail] was never bound: the [finally] does nothing *)
      (emit [handler e] st, Ok tt)
  | Ok mail =>
      let '(st, r) := sweep env rt mail st in
      let st := match r with
                | Ok _ => st
                | Raise e => emit [handler e] st
                end in
      match mail with
      | Some s => (emit [Logout s] st, logout env s)
      | None =>
          (st, Raise (Exn AttributeError
                        (lit "'NoneType' object has no attribute 'logout'")))
      end
  end.

(** How often the session was closed. *)
Definition is_logout (ev : event) : bool :=
  match ev with Logout _ => true | _ => false end.
Definition logouts (evs : list event) : nat :=
  length (List.filter is_logout evs).

Definition is_sleep (ev : event) : bool :=
  match ev with Sleep _ => true | _ => false end.
Definition is_connect (ev : event) : bool :=
  match ev with Connect _ => true | _ => false end.

(** The connection attempts and the waits of a trace, in order. *)
Definition attempts_and_waits (evs : list event) : list event :=
  List.filter (fun ev => is_connect ev || is_sleep ev) evs.

(** Attempts [0..k], each failed one followed by one wait of
    [retry_delay]. *)
Definition retry_pattern (k : nat) : list event :=
  flat_map (fun j => [Connect j; Sleep retry_delay]) (seq 0 k) ++ [Connect k].

(** Attempt [k] is the first that succeeds, and opens [s]. *)
Definition first_success (env : Env) (k : nat) (s : session) : Prop :=
  connect env k = Ok s /\ forall j, (j < k)%nat -> exists e, connect env j = Raise e.

(** Attempts [0..n-1] all fail. *)
Definition all_fail (env : Env) (n : nat) : Prop :=
  forall j, (j < n)%nat -> exists e, connect env j = Raise e.

(** ** What happens to one message id *)

(** The fetch of [email_id] is answered with a status other than OK. *)
Definition refused (env : Env) (mail : session) (email_id : list N) : Prop :=
  exists res msg, fetch env mail email_id = Ok (res, msg) /\ res <> lit "OK".

(** The record the message fetched under [email_id] normalises to, when
    the fetch is answered OK, the answer holds the message and
    [process_email] returns a record. *)
Definition normalized (env : Env) (rt : Runtime) (mail : session)
    (email_id : list N) : option MailRecord :=
  match fetch env mail email_id with
  | Ok (res, msg) =>
      if bool_decide (res = lit "OK") then
        match raw_message msg with
        | Ok raw =>
            (process_email rt (time_time env email_id)
               (message_from_bytes rt raw)).2
        | Raise _ => None
        end
      else None
  | Raise _ => None
  end.

(** The message normalises and the server acknowledges its update. *)
Definition persists (env : Env) (rt : Runtime) (mail : session)
    (email_id : list N) : Prop :=
  is_Some (normalized env rt mail email_id) /\ update_reply env email_id = None.

(** The collection holds a document for [message_id]. *)
Definition stored (id : list N) (c : list document) : Prop :=
  find id c <> [].

(** The library calls of [process_email] that can raise never raise a
    [KeyError] (none of them looks anything up by key on behalf of the
    caller). *)
Definition raises_KeyError {A} (r : result A) : bool :=
  match r with
  | Raise e => isinstance e KeyError
  | Ok _ => false
  end.

Definition no_KeyError (rt : Runtime) : Prop :=
  (forall h, raises_KeyError (decode_header rt h) = false)
  /\ (forall b cs, raises_KeyError (str_decode rt b cs) = false)
  /\ (forall d, raises_KeyError (mktime_tz rt d) = false)
  /\ (forall f, raises_KeyError (fromtimestamp rt f) = false)
  /\ (forall t, raises_KeyError (timestamp_of rt t) = false).

(** ** A runtime and servers for the examples *)

(** The answers of the library on the headers the examples use, as
    CPython gives them; the codecs are the real ones for the three
    charsets that occur.  A header other than the listed ones is taken
    to hold no encoded word, a date other than the listed ones not to
    parse. *)
Module Examples.

Definition two_charsets : list N :=
  lit "=?utf-8?q?caf=C3=A9?= =?iso-8859-1?q?_cr=E8me?=".
Definition bad_utf8 : list N := lit "=?utf-8?b?/w==?=".
Definition unknown_charset : list N := lit "=?x-unknown?q?a?=".

Definition lib_decode_header (h : list N)
  : result (list (segment * option (list N))) :=
  if bool_decide (h = two_charsets) then
    Ok [(SegBytes (lit "caf" ++ [0xC3; 0xA9]), Some (lit "utf-8"));
        (SegBytes (lit " cr" ++ [0xE8] ++ lit "me"), Some (lit "iso-8859-1"))]
  else if bool_decide (h = bad_utf8) then
    Ok [(SegBytes [0xFF], Some (lit "utf-8"))]
  else if bool_decide (h = unknown_charset) then
    Ok [(SegBytes (lit "a"), Some (lit "x-unknown"))]
  else Ok [(SegStr h, None)].

Definition lib_str_decode (b cs : list N) : result (list N) :=
  if bool_decide (cs = lit "utf-8") then utf8_decode strict b
  else if bool_decide (cs = lit "iso-8859-1") then Ok b
  else if bool_decide (cs = lit "us-ascii") then
    if forallb (fun x => x <? 0x80) b then Ok b
    else Raise (Exn UnicodeDecodeError (lit "ordinal not in range(128)"))
  else Raise (Exn LookupError (lit "unknown encoding: " ++ cs)).

(** [parseaddr] on the two shapes [name <address>] and [address]. *)
Fixpoint take_until (c : N) (s : list N) : list N :=
  match s with
  | [] => []
  | x :: s' => if x =? c then [] else x :: take_until c s'
  end.
Fixpoint drop_through (c : N) (s : list N) : option (list N) :=
  match s with
  | [] => None
  | x :: s' => if x =? c then Some s' else drop_through c s'
  end.
Fixpoint drop_while (f : N -> bool) (s : list N) : list N :=
  match s with
  | [] => []
  | x :: s' => if f x then drop_while f s' else s
  end.
Definition rstrip (s : list N) : list N := rev (drop_while (N.eqb 32) (rev s)).
Definition lstrip (s : list N) : list N := drop_while (N.eqb 32) s.

Definition lib_parseaddr (s : list N) : list N * list N :=
  match drop_through 60 s with
  | Some after => (rstrip (take_until 60 s), take_until 62 after)
  | None => ([], s)
  end.

Definition new_year_2024 : list N := lit "Mon, 01 Jan 2024 00:00:00 +0000".
Definition year_99999 : list N := lit "1 Jan 99999 00:00:00 +0000".

Definition lib_parsedate_tz (h : option (list N)) : option date_tuple :=
  match h with
  | None => None
  | Some h =>
      if bool_decide (h = new_year_2024) then Some (DateTuple 2024 1 1 0 0 0 0)
      else if bool_decide (h = year_99999) then Some (DateTuple 99999 1 1 0 0 0 0)
      else None
  end.

(** Days from 1970-01-01 to a date of the proleptic Gregorian calendar. *)
Definition days_from_civil (y m d : Z) : Z :=
  let y := (if m <=? 2 then y - 1 else y)%Z in
  let era := (y / 400)%Z in
  let yoe := (y - era * 400)%Z in
  let mp := (if m <=? 2 then m + 9 else m - 3)%Z in
  let doy := ((153 * mp + 2) / 5 + d - 1)%Z in
  let doe := (yoe * 365 + yoe / 4 - yoe / 100 + doy)%Z in
  (era * 146097 + doe - 719468)%Z.

(** [mktime_tz] goes through [datetime.date], which takes the years 1
    to 9999. *)
Definition lib_mktime_tz (d : date_tuple) : result pyfloat :=
  if ((1 <=? dt_year d) && (dt_year d <=? 9999))%Z then
    Ok (Float ((days_from_civil (dt_year d) (dt_month d) (dt_day d) * 86400
                + dt_hour d * 3600 + dt_minute d * 60 + dt_second d
                - dt_tzoffset d) * 1000000)%Z)
  else Raise (Exn ValueError (lit "year is out of range")).

(** The local zone of the examples is UTC. *)
Definition lib_fromtimestamp (f : pyfloat) : result datetime :=
  Ok (Datetime (float_micros f)).
Definition lib_timestamp_of (t : datetime) : result pyfloat :=
  Ok (Float (datetime_micros t)).

(** The decimal digits of a number. *)
Fixpoint digits_onto (fuel : nat) (n : N) (acc : list N) : list N :=
  match fuel with
  | O => acc
  | S fuel' =>
      let acc := (48 + n mod 10) :: acc in
      if n / 10 =? 0 then acc else digits_onto fuel' (n / 10) acc
  end.
Definition digits (n : N) : list N := digits_onto (S (N.size_nat n)) n [].

(** [str] of a non-negative float that counts microseconds: the seconds,
    a point and the fraction without its trailing zeros. *)
Definition lib_float_str (f : pyfloat) : list N :=
  let n := Z.to_N (float_micros f) in
  let frac := rev (drop_while (N.eqb 48)
                     (rev (tail (digits (1000000 + n mod 1000000))))) in
  digits (n / 1000000) ++ lit "."
    ++ match frac with [] => lit "0" | _ => frac end.

(** [message_from_bytes] on a message whose header lines are not folded:
    the fields up to the first empty line. *)
Definition end_line (line : list N) : list N :=
  rev (match line with 13 :: l => l | l => l end).

Fixpoint lines_from (line : list N) (b : list N) : list (list N) :=
  match b with
  | [] => [end_line line]
  | x :: b' =>
      if x =? 10 then end_line line :: lines_from [] b'
      else lines_from (x :: line) b'
  end.

Fixpoint header_fields (ls : list (list N)) : Message :=
  match ls with
  | [] => []
  | l :: ls' =>
      match drop_through 58 l with
      | Some v => (take_until 58 l, lstrip v) :: header_fields ls'
      | None => []
      end
  end.

Definition lib_message_from_bytes (raw : list N) : Message :=
  header_fields (lines_from [] raw).

Definition runtime : Runtime := {|
  decode_header := lib_decode_header;
  str_decode := lib_str_decode;
  parseaddr := lib_parseaddr;
  parsedate_tz := lib_parsedate_tz;
  mktime_tz := lib_mktime_tz;
  fromtimestamp := lib_fromtimestamp;
  timestamp_of := lib_timestamp_of;
  float_str := lib_float_str;
  message_from_bytes := lib_message_from_bytes
|}.

(** Three unread messages. *)
Definition line (s : string) : list N := lit s ++ [13; 10].

Definition raw (n : string) : list N :=
  line "From: Ann Lee <ann@example.org>"
  ++ line ("Subject: message " ++ n)
  ++ line ("Message-ID: <" ++ n ++ "@example.org>")
  ++ line "Date: Mon, 01 Jan 2024 00:00:00 +0000"
  ++ line "" ++ lit "body".

Definition fetch_answer (refuse : list N -> bool) (email_id : list N)
  : result (list N * list (option (list N * list N))) :=
  if refuse email_id then Ok (lit "NO", [None])
  else if bool_decide (email_id = lit "1")
  then Ok (lit "OK", [Some (lit "1 (RFC822 {140}", raw "1")])
  else if bool_decide (email_id = lit "2")
  then Ok (lit "OK", [Some (lit "2 (RFC822 {140}", raw "2")])
  else Ok (lit "OK", [Some (lit "3 (RFC822 {140}", raw "3")]).

(** A server that answers the search with [status] and the ids 1, 2, 3,
    refuses the fetches [refuse] selects, and a store that fails as
    [store] says. *)
Definition server (connecting : nat -> result session) (status : list N)
    (refuse : list N -> bool) (store : list N -> option exn)
    (closing : session -> result unit) : Env := {|
  connect := connecting;
  select := fun _ => Ok tt;
  search := fun _ => Ok (status, [Some (lit "1 2 3")]);
  fetch := fun _ => fetch_answer refuse;
  logout := closing;
  time_time := fun _ => Float 1704070800250000;
  datetime_now := fun _ => Datetime 1704070800500000;
  update_reply := store
|}.

(** The run of the specification: the first two attempts fail. *)
Definition flaky_connect (attempt : nat) : result session :=
  if (attempt <? 2)%nat
  then Raise (Exn IMAP4_error (lit "LOGIN failed"))
  else Ok (Session attempt).

Definition steady_connect (attempt : nat) : result session :=
  Ok (Session attempt).

Definition is_id (n : string) (email_id : list N) : bool :=
  bool_decide (email_id = lit n).


Definition connection_lost : exn :=
  Exn IMAP4_error (lit "socket error: EOF").

Definition empty : state := State [] [].

Definition always_ok (_ : session) : result unit := Ok tt.
Definition never_refused (_ : list N) : bool := false.
Definition acknowledged (_ : list N) : option exn := None.

(** Two failed attempts, then an ordinary sweep. *)
Definition retrying : Env :=
  server flaky_connect (lit "OK") never_refused acknowledged always_ok.

(** The search is answered NO. *)
Definition search_refused : Env :=
  server steady_connect (lit "NO") never_refused acknowledged always_ok.

(** The fetch of the second of the three messages is answered NO. *)
Definition second_refused : Env :=
  server steady_connect (lit "OK") (is_id "2") acknowledged always_ok.


(** The connection is lost before the logout. *)
Definition logout_fails : Env :=
  server steady_connect (lit "OK") never_refused acknowledged
    (fun _ => Raise connection_lost).

Definition from_ann : list N * list N :=
  (lit "From", lit "Ann Lee <ann@example.org>").


(** A subject of two encoded words in two charsets. *)
Definition two_segments : Message :=
  [from_ann; (lit "Subject", two_charsets); (lit "Date", new_year_2024);
   (lit "Message-ID", lit "<7@example.org>")].

(** No subject header; an empty one. *)
Definition no_subject_header : Message :=
  [from_ann; (lit "Date", new_year_2024);
   (lit "Message-ID", lit "<8@example.org>")].
Definition empty_subject : Message :=
  [from_ann; (lit "Subject", []); (lit "Date", new_year_2024);
   (lit "Message-ID", lit "<9@example.org>")].

(** A subject whose octets are not UTF-8; one in a charset Python does
    not know; a date in a year [datetime] cannot hold. *)
Definition undecodable_subject : Message :=
  [from_ann; (lit "Subject", bad_utf8)].
Definition unknown_charset_subject : Message :=
  [from_ann; (lit "Subject", unknown_charset)].
Definition out_of_range_date : Message :=
  [from_ann; (lit "Subject", lit "hello"); (lit "Date", year_99999)].

Definition clock : pyfloat := Float 1704070800250000.

Definition first_version : MailRecord := {|
  message_id := lit "<1@example.org>";
  sender := lit "ann@example.org";
  subject := lit "draft";
  timestamp := Datetime 1704067200000000
|}.
Definition second_version : MailRecord := {|
  message_id := lit "<1@example.org>";
  sender := lit "ann@example.org";
  subject := lit "final";
  timestamp := Datetime 1704067200000000
|}.

End Examples.

(** ** The configuration, the start-up and main *)

(** What [self.config[section][option]] evaluates to: the value, or the
    exception of the lookup (a [KeyError] for a section or an option
    that is not there). *)
Abbreviation Config := (string -> string -> result pystr) (only parsing).

(** What the network answers to one connection attempt. *)
Record Network := {
  (** [imaplib.IMAP4_SSL(server)] at attempt number [n] *)
  imap4_ssl : pystr -> nat -> result session;
  (** [mail.login(email, password)] *)
  login : session -> pystr -> pystr -> result unit
}.

(** Lines 58-59: the body of the [try] of one attempt.  The arguments
    are evaluated before the call they belong to. *)
Definition connect_attempt (config : Config) (net : Network) (attempt : nat)
  : result session :=
  server ← config "Email" "imap_server";
  mail ← imap4_ssl net server attempt;
  email ← config "Email" "email";
  password ← config "Email" "password";
  _ ← login net mail email password;
  Ok mail.

(** The servers of [env], with the connection made from the
    configuration. *)
Definition with_config (config : Config) (net : Network) (env : Env) : Env := {|
  connect := connect_attempt config net;
  select := select env;
  search := search env;
  fetch := fetch env;
  logout := logout env;
  time_time := time_time env;
  datetime_now := datetime_now env;
  update_reply := update_reply env
|}.

(** What the MongoDB driver and server answer during the start-up. *)
Record Store := {
  (** [MongoClient(uri, serverSelectionTimeoutMS=5000)] *)
  mongo_client : pystr -> result unit;
  (** [self.db_client[database]] *)
  get_database : pystr -> result unit;
  (** [self.db[collection].create_index('message_id', unique=True)], on
      the documents the collection holds *)
  create_index : pystr -> list document -> result unit;
  (** [self.db_client.admin.command('ping')] *)
  ping : result unit
}.

(** The log lines of the start-up and of [main], and the calls of the
    start-up; the events of the sweep are carried over. *)
Inductive main_msg :=
  | ConnectedToMongoDB            (* "Successfully connected to MongoDB" *)
  | MongoDBNotReachable (e : exn) (* "MongoDB server not reachable: {e}" *)
  | MongoDBError (e : exn)        (* "MongoDB error: {e}" *)
  | CriticalError (e : exn).      (* "Critical error in main execution: {e}" *)

Inductive severity :=
  | Level (l : level)
  | CRITICAL.

Inductive main_event :=
  | LogMain (l : severity) (m : main_msg)
  | ReadConfig                    (* EmailProcessor('config.ini') *)
  | MongoClient (uri : pystr)
  | CreateIndex (collection : pystr)
  | Ping
  | InSweep (ev : event).

Global Instance main_msg_eq_dec : EqDecision main_msg.
Proof. solve_decision. Defined.
Global Instance severity_eq_dec : EqDecision severity.
Proof. solve_decision. Defined.
Global Instance main_event_eq_dec : EqDecision main_event.
Proof. solve_decision. Defined.

(** The body of the [try] of [_setup_database] (lines 38-44). *)
Definition setup_body (config : Config) (store : Store)
    (c : list document) : list main_event * result unit :=
  match config "Database" "mongodb_uri" with
  | Raise e => ([], Raise e)
  | Ok uri =>
  match mongo_client store uri with
  | Raise e => ([MongoClient uri], Raise e)
  | Ok _ =>
  match config "Database" "database" with
  | Raise e => ([MongoClient uri], Raise e)
  | Ok database =>
  match get_database store database with
  | Raise e => ([MongoClient uri], Raise e)
  | Ok _ =>
  match config "Database" "collection" with
  | Raise e => ([MongoClient uri], Raise e)
  | Ok collection =>
  match create_index store collection c with
  | Raise e => ([MongoClient uri; CreateIndex collection], Raise e)
  | Ok _ =>
  match ping store with
  | Raise e => ([MongoClient uri; CreateIndex collection; Ping], Raise e)
  | Ok _ =>
      ([MongoClient uri; CreateIndex collection; Ping;
        LogMain (Level INFO) ConnectedToMongoDB], Ok tt)
  end end end end end end end.

(** [_setup_database]: the first handler takes a
    [ServerSelectionTimeoutError], the second any other [PyMongoError];
    both log and raise again.  Anything else leaves the method as it
    is. *)
Definition _setup_database (config : Config) (store : Store)
    (c : list document) : list main_event * result unit :=
  match setup_body config store c with
  | (evs, Ok _) => (evs, Ok tt)
  | (evs, Raise e) =>
      if isinstance e ServerSelectionTimeoutError
      then (evs ++ [LogMain (Level ERROR) (MongoDBNotReachable e)], Raise e)
      else if isinstance e PyMongoError
      then (evs ++ [LogMain (Level ERROR) (MongoDBError e)], Raise e)
      else (evs, Raise e)
  end.

(** What the program needs from outside: whether reading the
    configuration file raises, the configuration, the network and the
    store; the answers during the sweep are those of an [Env]. *)
Record World := {
  read_config : result unit;
  config_of : string -> string -> result pystr;
  network : Network;
  store : Store;
  servers : Env
}.

(** [main] (lines 160-166), started on a collection [c]: the collection
    it leaves and what it did.  Its handler catches every exception, so
    it has no other outcome. *)
Definition main (w : World) (rt : Runtime) (c : list document)
  : list document * list main_event :=
  let critical e := LogMain CRITICAL (CriticalError e) in
  match read_config w with
  | Raise e => (c, [ReadConfig; critical e])
  | Ok _ =>
      match _setup_database (config_of w) (store w) c with
      | (evs, Raise e) => (c, ReadConfig :: evs ++ [critical e])
      | (evs, Ok _) =>
          let '(st, r) :=
            process_unread_emails
              (with_config (config_of w) (network w) (servers w)) rt
              (State c []) in
          (db st,
           ReadConfig :: evs ++ map InSweep (trace st)
             ++ match r with
                | Ok _ => []
                | Raise e => [critical e]
                end)
      end
  end.

Definition is_in_sweep (ev : main_event) : bool :=
  match ev with InSweep _ => true | _ => false end.
Definition is_critical (ev : main_event) : bool :=
  match ev with LogMain CRITICAL _ => true | _ => false end.

(** The error lines of a trace of [connect_to_email_server]. *)
Definition is_error_line (ev : event) : bool :=
  match ev with Log ERROR _ => true | _ => false end.

(** One write of the sweep: the upsert of a record at a clock reading. *)
Definition upsert (c : list document) (w : MailRecord * datetime)
  : list document :=
  update_one (message_id w.1) (email_dict w.1 w.2) c.

(** The ids the search of a session lists ([[]] when it lists none). *)
Definition listed (env : Env) (mail : session) : list bytes :=
  match search env mail with
  | Ok (_, Some ids :: _) => split ids
  | _ => []
  end.

(** The writes a loop over [email_ids] makes when nothing raises: one
    for each id that normalises, in list order, at the clock reading
    for that id. *)
Fixpoint saved (env : Env) (rt : Runtime) (mail : session)
    (email_ids : list bytes) : list (MailRecord * datetime) :=
  match email_ids with
  | [] => []
  | email_id :: rest =>
      match normalized env rt mail email_id with
      | Some d => (d, datetime_now env email_id) :: saved env rt mail rest
      | None => saved env rt mail rest
      end
  end.

Definition is_retry_line (ev : event) : bool :=
  match ev with Log INFO (RetryingConnection _ _) => true | _ => false end.

Definition is_log_main (ev : main_event) : bool :=
  match ev with LogMain _ _ => true | _ => false end.

(** The line [connect_to_email_server] logs for a failed attempt. *)
Definition attempt_error_line (e : exn) : event :=
  Log ERROR (if isinstance e IMAP4_error then IMAPError e else UnexpectedError e).

(** The sweep [main] runs, when it gets that far. *)
Definition sweep_of_main (w : World) (rt : Runtime) (c : list document)
  : state * result unit :=
  process_unread_emails (with_config (config_of w) (network w) (servers w)) rt
    (State c []).

(** ** More examples *)

Module MoreExamples.
Import Examples.

(** A configuration file with both sections; one without the [Email]
    section. *)
Definition settings (section option : string) : result pystr :=
  if bool_decide (section = "Database") then
    if bool_decide (option = "mongodb_uri") then Ok (lit "mongodb://localhost:27017")
    else if bool_decide (option = "database") then Ok (lit "mail")
    else if bool_decide (option = "collection") then Ok (lit "inbox")
    else Raise (Exn KeyError (lit option))
  else if bool_decide (section = "Email") then
    if bool_decide (option = "imap_server") then Ok (lit "imap.example.org")
    else if bool_decide (option = "email") then Ok (lit "ann@example.org")
    else if bool_decide (option = "password") then Ok (lit "secret")
    else Raise (Exn KeyError (lit option))
  else Raise (Exn KeyError (lit section)).


(** A network on which every attempt succeeds. *)
Definition open_network : Network := {|
  imap4_ssl := fun _ attempt => Ok (Session attempt);
  login := fun _ _ _ => Ok tt
|}.

(** A store that is up; its server declares the unique index only when
    no two documents have the same key. *)
Definition live_store : Store := {|
  mongo_client := fun _ => Ok tt;
  get_database := fun _ => Ok tt;
  create_index := fun _ docs =>
    if decide (NoDup (map key_of docs)) then Ok tt
    else Raise (Exn PyMongoError (lit "E11000 duplicate key error"));
  ping := Ok tt
|}.

(** A store whose server is not reachable. *)
Definition dead_store : Store := {|
  mongo_client := fun _ => Ok tt;
  get_database := fun _ => Ok tt;
  create_index := fun _ _ =>
    Raise (Exn ServerSelectionTimeoutError (lit "localhost:27017: timed out"));
  ping := Ok tt
|}.

Definition world (st : Store) (env : Env) : World := {|
  read_config := Ok tt;
  config_of := settings;
  network := open_network;
  store := st;
  servers := env
|}.

(** The mail server does not answer. *)
Definition down : Env :=
  server (fun _ => Raise (Exn OSError (lit "timed out"))) (lit "OK")
    never_refused acknowledged always_ok.

(** Nothing unread: the search is answered OK with one blank. *)
Definition nothing_unread : Env := {|
  connect := steady_connect;
  select := fun _ => Ok tt;
  search := fun _ => Ok (lit "OK", [Some (lit " ")]);
  fetch := fun _ => fetch_answer never_refused;
  logout := always_ok;
  time_time := fun _ => clock;
  datetime_now := fun _ => Datetime 1704070800500000;
  update_reply := acknowledged
|}.

(** The connection drops at the fetch of the second message. *)
Definition fetch_drops : Env := {|
  connect := steady_connect;
  select := fun _ => Ok tt;
  search := fun _ => Ok (lit "OK", [Some (lit "1 2 3")]);
  fetch := fun _ email_id =>
    if is_id "2" email_id then Raise connection_lost
    else fetch_answer never_refused email_id;
  logout := always_ok;
  time_time := fun _ => clock;
  datetime_now := fun _ => Datetime 1704070800500000;
  update_reply := acknowledged
|}.

(** The second message has a subject that does not decode. *)
Definition bad_raw : list N :=
  line "From: Ann Lee <ann@example.org>"
  ++ line "Subject: =?utf-8?b?/w==?="
  ++ line "" ++ lit "body".

Definition second_undecodable : Env := {|
  connect := steady_connect;
  select := fun _ => Ok tt;
  search := fun _ => Ok (lit "OK", [Some (lit "1 2 3")]);
  fetch := fun _ email_id =>
    if is_id "2" email_id then Ok (lit "OK", [Some (lit "2 (RFC822 {70}", bad_raw)])
    else fetch_answer never_refused email_id;
  logout := always_ok;
  time_time := fun _ => clock;
  datetime_now := fun _ => Datetime 1704070800500000;
  update_reply := acknowledged
|}.

(** A message with a date and a message-id. *)
Definition dated : Message :=
  [from_ann; (lit "Subject", lit "hello"); (lit "Date", new_year_2024);
   (lit "Message-ID", lit "<5@example.org>")].

(** The record [dated] normalises to. *)
Definition dated_record : MailRecord := {|
  message_id := lit "<5@example.org>";
  sender := lit "ann@example.org";
  subject := lit "hello";
  timestamp := Datetime 1704067200000000
|}.

(** A collection that holds another message already. *)
Definition one_document : state :=
  (save_to_database (Datetime 5) None
     {| message_id := lit "<0@example.org>"; sender := lit "bob@example.org";
        subject := lit "older"; timestamp := Datetime 1 |} empty).1.

(** No subject header, and a date in a year [datetime] cannot hold; the
    same with an empty subject header. *)
Definition no_subject_bad_date : Message :=
  [from_ann; (lit "Date", year_99999)].
Definition empty_subject_bad_date : Message :=
  [from_ann; (lit "Subject", []); (lit "Date", year_99999)].

(** The search is answered NO and the connection is lost before the
    logout. *)
Definition search_refused_logout_fails : Env :=
  server steady_connect (lit "NO") never_refused acknowledged
    (fun _ => Raise connection_lost).



End MoreExamples.
(** ** Facts about the codec *)

Ltac range_cases :=
  unfold second_ok, is_cont, in_range, is_surrogate in *;
  repeat match goal with
  | |- context [?a <? ?b] => destruct (N.ltb_spec a b)
  | |- context [?a <=? ?b] => destruct (N.leb_spec a b)
  | |- context [?a =? ?b] => destruct (N.eqb_spec a b)
  | H : context [?a <? ?b] |- _ => destruct (N.ltb_spec a b)
  | H : context [?a <=? ?b] |- _ => destruct (N.leb_spec a b)
  end; cbn [andb orb negb] in *.

Ltac clearbody_all :=
  repeat match goal with x := _ |- _ => clearbody x end.

(** Settles a range test of the decoder once the octet is bounded. *)
Ltac decide_test t v :=
  replace t with v by (symmetry; range_cases; (reflexivity || (exfalso; clearbody_all; lia))).

Lemma utf8_decode_encode_cp h c bs l :
  utf8_encode_cp c = Some bs ->
  utf8_decode h (bs ++ l) = (fun s => c :: s) <$> utf8_decode h l.
Proof.
  unfold utf8_encode_cp. intros Henc.
  pose proof (N.div_mod c 64 ltac:(lia)) as Hc.
  pose proof (N.mod_lt c 64 ltac:(lia)) as Hr1.
  pose proof (N.div_mod (c / 64) 64 ltac:(lia)) as Hq1.
  pose proof (N.mod_lt (c / 64) 64 ltac:(lia)) as Hr2.
  pose proof (N.div_mod (c / 64 / 64) 64 ltac:(lia)) as Hq2.
  pose proof (N.mod_lt (c / 64 / 64) 64 ltac:(lia)) as Hr3.
  replace (c / 4096) with (c / 64 / 64) in *
    by (rewrite N.Div0.div_div; reflexivity).
  replace (c / 262144) with (c / 64 / 64 / 64) in *
    by (rewrite !N.Div0.div_div; reflexivity).
  set (q1 := c / 64) in *. set (r1 := c mod 64) in *.
  set (q2 := q1 / 64) in *. set (r2 := q1 mod 64) in *.
  set (q3 := q2 / 64) in *. set (r3 := q2 mod 64) in *.
  destruct (N.ltb_spec c 0x80) as [H1|H1].
  { injection Henc as <-. cbn [app utf8_decode].
    decide_test (c <? 0x80) true.
    destruct (utf8_decode h l); reflexivity. }
  destruct (N.ltb_spec c 0x800) as [H2|H2].
  { injection Henc as <-. cbn [app utf8_decode].
    decide_test (0xC0 + q1 <? 0x80) false.
    decide_test (in_range 0xC2 0xDF (0xC0 + q1)) true.
    decide_test (is_cont (0x80 + r1)) true.
    replace ((0xC0 + q1 - 0xC0) * 64 + (0x80 + r1 - 0x80)) with c by lia.
    destruct (utf8_decode h l); reflexivity. }
  destruct (N.ltb_spec c 0x10000) as [H3|H3].
  { destruct (is_surrogate c) eqn:Hs; [discriminate|].
    injection Henc as <-. cbn [app utf8_decode].
    decide_test (0xE0 + q2 <? 0x80) false.
    decide_test (in_range 0xC2 0xDF (0xE0 + q2)) false.
    decide_test (in_range 0xE0 0xEF (0xE0 + q2)) true.
    decide_test (second_ok (0xE0 + q2) (0x80 + r2)) true.
    decide_test (is_cont (0x80 + r1)) true.
    replace ((0xE0 + q2 - 0xE0) * 4096 + (0x80 + r2 - 0x80) * 64
             + (0x80 + r1 - 0x80)) with c by lia.
    destruct (utf8_decode h l); reflexivity. }
  destruct (N.ltb_spec c 0x110000) as [H4|H4]; [|discriminate].
  injection Henc as <-. cbn [app utf8_decode].
  decide_test (0xF0 + q3 <? 0x80) false.
  decide_test (in_range 0xC2 0xDF (0xF0 + q3)) false.
  decide_test (in_range 0xE0 0xEF (0xF0 + q3)) false.
  decide_test (in_range 0xF0 0xF4 (0xF0 + q3)) true.
  decide_test (second_ok (0xF0 + q3) (0x80 + r3)) true.
  decide_test (is_cont (0x80 + r2)) true.
  decide_test (is_cont (0x80 + r1)) true.
  replace ((0xF0 + q3 - 0xF0) * 262144 + (0x80 + r3 - 0x80) * 4096
           + (0x80 + r2 - 0x80) * 64 + (0x80 + r1 - 0x80)) with c by lia.
  destruct (utf8_decode h l); reflexivity.
Qed.

(** Encoding then decoding gives the text back, under either handler:
    the octets [utf8_encode] produces are well formed. *)
Lemma utf8_decode_encode h s b :
  utf8_encode s = Ok b -> utf8_decode h b = Ok s.
Proof.
  revert b. induction s as [|c s IH]; intros b Henc; simpl in Henc.
  - injection Henc as <-. reflexivity.
  - destruct (utf8_encode_cp c) as [bs|] eqn:Hc; [|discriminate].
    destruct (utf8_encode s) as [rest|e]; [|discriminate].
    injection Henc as <-.
    rewrite (utf8_decode_encode_cp h c bs rest Hc), (IH rest eq_refl).
    reflexivity.
Qed.

(** So the re-encoding idiom either raises (in [encode]) or returns its
    argument unchanged: its replace handler never has anything to
    replace. *)
Lemma reencode_id s s' : reencode s = Ok s' -> s' = s.
Proof.
  unfold reencode. destruct (utf8_encode s) as [b|e] eqn:Henc; simpl.
  - rewrite (utf8_decode_encode replace s b Henc). congruence.
  - discriminate.
Qed.

Lemma reencode_encodable s b : utf8_encode s = Ok b -> reencode s = Ok s.
Proof.
  intros Henc. unfold reencode. rewrite Henc. simpl.
  apply utf8_decode_encode, Henc.
Qed.

Lemma reencode_raise s e :
  reencode s = Raise e -> exn_cls e = UnicodeEncodeError.
Proof.
  unfold reencode. destruct (utf8_encode s) as [b|e'] eqn:Henc; simpl.
  - rewrite (utf8_decode_encode replace s b Henc). discriminate.
  - intros [= <-]. clear -Henc. revert e' Henc.
    induction s as [|c s IH]; simpl; intros e' Henc; [discriminate|].
    destruct (utf8_encode_cp c); [|injection Henc as <-; reflexivity].
    destruct (utf8_encode s); [discriminate|].
    injection Henc as <-. apply IH. reflexivity.
Qed.

(** The only exception the decoder raises is its [UnicodeDecodeError]. *)
Lemma utf8_decode_raise h b e :
  utf8_decode h b = Raise e -> exn_cls e = UnicodeDecodeError.
Proof.
  remember (length b) as n eqn:Hn.
  assert (length b <= n)%nat as Hlen by lia. clear Hn.
  revert b e Hlen. induction n as [|n IH]; intros [|b1 r1] e Hlen H;
    simpl in Hlen; try lia; try discriminate.
  cbn [utf8_decode] in H.
  repeat match type of H with
  | context [match ?x with _ => _ end] =>
      let E := fresh "E" in destruct x eqn:E; cbn [length] in Hlen
  end;
  try discriminate; injection H as <-; try reflexivity;
  match goal with
  | E : utf8_decode _ ?r = Raise _ |- _ => apply (IH r); [cbn [length]; lia | exact E]
  end.
Qed.

(** ** connect_to_email_server *)

Lemma connect_loop_cases env :
  (exists s, first_success env 0 s) \/ (exists s, first_success env 1 s)
  \/ (exists s, first_success env 2 s) \/ all_fail env 3.
Proof.
  unfold first_success, all_fail.
  destruct (connect env 0) as [s0|e0] eqn:H0; [left; exists s0; split; [done|lia]|].
  destruct (connect env 1) as [s1|e1] eqn:H1.
  { right; left. exists s1. split; [done|]. intros j Hj.
    assert (j = 0)%nat as -> by lia. eauto. }
  destruct (connect env 2) as [s2|e2] eqn:H2.
  { right; right; left. exists s2. split; [done|]. intros j Hj.
    assert (j = 0 \/ j = 1)%nat as [-> | ->] by lia; eauto. }
  right; right; right. intros j Hj.
  assert (j = 0 \/ j = 1 \/ j = 2)%nat as [-> | [-> | ->]] by lia; eauto.
Qed.

(** What one run of the method does, by the attempt that succeeds. *)
Lemma connect_succeeds env k s :
  (k < 3)%nat -> first_success env k s ->
  (connect_to_email_server env).2 = Ok (Some s)
  /\ attempts_and_waits (connect_to_email_server env).1 = retry_pattern k.
Proof.
  intros Hk [Hs Hfail]. unfold connect_to_email_server.
  destruct k as [|[|[|k]]]; [| | |lia].
  - simpl. rewrite Hs. done.
  - destruct (Hfail 0%nat ltac:(lia)) as [e0 H0].
    simpl. rewrite H0. simpl. rewrite Hs. done.
  - destruct (Hfail 0%nat ltac:(lia)) as [e0 H0].
    destruct (Hfail 1%nat ltac:(lia)) as [e1 H1].
    simpl. rewrite H0. simpl. rewrite H1. simpl. rewrite Hs. done.
Qed.

Lemma connect_gives_up env :
  all_fail env 3 ->
  (connect_to_email_server env).2
    = Raise (Exn ConnectionError
               (lit "Failed to connect to email server after max retries"))
  /\ attempts_and_waits (connect_to_email_server env).1 = retry_pattern 2.
Proof.
  intros Hfail. unfold connect_to_email_server.
  destruct (Hfail 0%nat ltac:(lia)) as [e0 H0].
  destruct (Hfail 1%nat ltac:(lia)) as [e1 H1].
  destruct (Hfail 2%nat ltac:(lia)) as [e2 H2].
  simpl. rewrite H0. simpl. rewrite H1. simpl. rewrite H2. done.
Qed.

Lemma connect_shape env :
  exists k, (k < 3)%nat
    /\ attempts_and_waits (connect_to_email_server env).1 = retry_pattern k
    /\ forall ev, In ev (connect_to_email_server env).1 ->
         is_sleep ev = true -> ev = Sleep 5.
Proof.
  unfold connect_to_email_server.
  destruct (connect env 0) as [s0|e0] eqn:H0.
  { exists 0%nat. simpl. rewrite H0. simpl. split; [lia|]. split; [done|].
    intros ev [<-|[<-|[]]]; done. }
  destruct (connect env 1) as [s1|e1] eqn:H1.
  { exists 1%nat. simpl. rewrite H0. simpl. rewrite H1. simpl.
    split; [lia|]. split; [done|].
    intros ev Hin. repeat (destruct Hin as [<-|Hin]; [done|]). destruct Hin. }
  exists 2%nat. simpl. rewrite H0. simpl. rewrite H1. simpl.
  split; [lia|].
  destruct (connect env 2) as [s2|e2] eqn:H2; simpl; (split; [done|]);
    intros ev Hin; repeat (destruct Hin as [<-|Hin]; [done|]); destruct Hin.
Qed.

Lemma retry_pattern_counts_from start k c :
  let evs := flat_map (fun j => [Connect j; Sleep retry_delay]) (seq start k)
               ++ [Connect c] in
  length (List.filter is_connect evs) = S k
  /\ length (List.filter is_sleep evs) = k.
Proof.
  revert start. induction k as [|k IH]; intros start; simpl; [done|].
  destruct (IH (S start)) as [IH1 IH2]. simpl in *. lia.
Qed.

Lemma retry_pattern_counts k :
  length (List.filter is_connect (retry_pattern k)) = S k
  /\ length (List.filter is_sleep (retry_pattern k)) = k.
Proof. apply retry_pattern_counts_from. Qed.

Lemma filter_attempts_and_waits (f : event -> bool) evs :
  (forall ev, f ev = true -> is_connect ev || is_sleep ev = true) ->
  List.filter f (attempts_and_waits evs) = List.filter f evs.
Proof.
  intros Hf. unfold attempts_and_waits.
  induction evs as [|ev evs IH]; simpl; [done|].
  destruct (is_connect ev || is_sleep ev) eqn:Hc; simpl.
  - rewrite IH. done.
  - destruct (f ev) eqn:Hfev; [|done].
    rewrite (Hf ev Hfev) in Hc. discriminate.
Qed.

(** The loop of [connect_to_email_server] never runs out: the method
    returns a session or raises, it does not return [None]. *)
Lemma connect_returns_session env :
  (connect_to_email_server env).2 <> Ok None.
Proof.
  unfold connect_to_email_server. simpl.
  destruct (connect env 0); simpl; [done|].
  destruct (connect env 1); simpl; [done|].
  destruct (connect env 2); done.
Qed.

(** C2.  Whatever the attempts answer, [connect_to_email_server] makes
    at most three of them, waits [retry_delay] = 5 after each failed
    attempt but the last and nowhere else, and either returns a session
    or raises; when attempt [k] of the first three is the first to
    succeed it returns that session after exactly [k] waits; when all
    three fail it raises the terminal [ConnectionError], which is a
    fresh exception and not the protocol error, and returns no
    session. *)
Theorem connect_to_email_server_bounded_retry (env : Env) :
  let evs := (connect_to_email_server env).1 in
  let r := (connect_to_email_server env).2 in
  (length (List.filter is_connect evs) <= 3)%nat
  /\ (forall ev, In ev evs -> is_sleep ev = true -> ev = Sleep 5)
  /\ (exists k, (k < 3)%nat /\ attempts_and_waits evs = retry_pattern k)
  /\ ((exists k s, (k < 3)%nat /\ first_success env k s) \/ all_fail env 3)
  /\ r <> Ok None
  /\ (forall k s, (k < 3)%nat -> first_success env k s ->
        r = Ok (Some s)
        /\ attempts_and_waits evs = retry_pattern k
        /\ length (List.filter is_connect evs) = S k
        /\ length (List.filter is_sleep evs) = k)
  /\ (all_fail env 3 ->
        r = Raise (Exn ConnectionError
                     (lit "Failed to connect to email server after max retries"))
        /\ (forall e, r = Raise e -> isinstance e IMAP4_error = false)
        /\ (forall s, r <> Ok s)
        /\ attempts_and_waits evs = retry_pattern 2
        /\ length (List.filter is_connect evs) = 3%nat
        /\ length (List.filter is_sleep evs) = 2%nat).
Proof.
  intros evs r. subst evs r.
  destruct (connect_shape env) as (k & Hk & Hpat & Hsleep).
  assert (Hcount : forall j,
    attempts_and_waits (connect_to_email_server env).1 = retry_pattern j ->
    length (List.filter is_connect (connect_to_email_server env).1) = S j
    /\ length (List.filter is_sleep (connect_to_email_server env).1) = j).
  { intros j Hj.
    rewrite <- (filter_attempts_and_waits is_connect),
            <- (filter_attempts_and_waits is_sleep), Hj.
    - apply retry_pattern_counts.
    - intros ev ->. apply orb_true_r.
    - intros ev ->. done. }
  split. { destruct (Hcount k Hpat) as [-> _]. lia. }
  split; [exact Hsleep|].
  split; [eauto|].
  split.
  { destruct (connect_loop_cases env) as [[s ?]|[[s ?]|[[s ?]|?]]];
      [left; exists 0%nat, s|left; exists 1%nat, s|left; exists 2%nat, s|right];
      (done || (split; [lia|done])). }
  split; [apply connect_returns_session|].
  split.
  - intros j s Hj Hfirst.
    destruct (connect_succeeds env j s Hj Hfirst) as [Hr Hp].
    destruct (Hcount j Hp). done.
  - intros Hfail. destruct (connect_gives_up env Hfail) as [Hr Hp].
    destruct (Hcount 2%nat Hp). rewrite Hr.
    repeat split; try done. intros e [= <-]. done.
Qed.

(** ** The sweep *)

Lemma trace_emit evs st : trace (emit evs st) = trace st ++ evs.
Proof. done. Qed.

Lemma db_emit evs st : db (emit evs st) = db st.
Proof. done. Qed.

Lemma emit_emit evs1 evs2 st : emit evs2 (emit evs1 st) = emit (evs1 ++ evs2) st.
Proof. unfold emit. simpl. by rewrite app_assoc. Qed.

(** A record is returned without a log line; a skip writes exactly one. *)
Lemma process_email_some rt now m evs d :
  process_email rt now m = (evs, Some d) ->
  evs = [] /\ process_email_body rt now m = Ok d.
Proof.
  unfold process_email. destruct (process_email_body rt now m) as [d'|e].
  - intros [= <- <-]. done.
  - destruct (isinstance e KeyError); discriminate.
Qed.

Lemma process_email_logs rt now m ev :
  In ev (process_email rt now m).1 -> exists l msg, ev = Log l msg.
Proof.
  unfold process_email. destruct (process_email_body rt now m) as [d|e].
  - intros [].
  - destruct (isinstance e KeyError); intros [<-|[]]; eauto.
Qed.

Lemma save_to_database_logs now reply d st :
  exists evs, trace (save_to_database now reply d st).1 = trace st ++ evs
    /\ forall ev, In ev evs -> exists l msg, ev = Log l msg.
Proof.
  unfold save_to_database. destruct reply as [e|].
  - destruct (isinstance e PyMongoError).
    + exists [Log ERROR (ErrorSaving e)]. split; [done|].
      intros ev [<-|[]]; eauto.
    + exists []. split; [by rewrite app_nil_r|]. intros ev [].
  - eexists. split; [done|]. intros ev [<-|[]]; eauto.
Qed.

(** The loop over a concatenation: the second part runs from the state
    the first part leaves, unless the first part raised. *)
Lemma process_ids_app env rt mail l1 l2 st :
  process_ids env rt mail (l1 ++ l2) st
  = match process_ids env rt mail l1 st with
    | (st1, Ok _) => process_ids env rt mail l2 st1
    | (st1, Raise e) => (st1, Raise e)
    end.
Proof.
  revert st. induction l1 as [|email_id l1 IH]; intros st; simpl; [done|].
  destruct (fetch env mail email_id) as [[res msg]|e]; [|done].
  destruct (negb (bool_decide (res = lit "OK"))); [apply IH|].
  destruct (raw_message msg) as [raw|e]; [|done].
  destruct (process_email rt (time_time env email_id) (message_from_bytes rt raw))
    as [evs [d|]]; [|apply IH].
  destruct (save_to_database _ _ d _) as [st' [[]|e]]; [apply IH|done].
Qed.

(** The loop only appends to the trace, and what it appends are fetches
    and log lines. *)
Lemma process_ids_trace env rt mail ids st :
  exists evs, trace (process_ids env rt mail ids st).1 = trace st ++ evs
    /\ forall ev, In ev evs ->
         (exists l msg, ev = Log l msg) \/ (exists id, In id ids /\ ev = Fetch mail id).
Proof.
  revert st. induction ids as [|email_id ids IH]; intros st; simpl.
  { exists []. split; [by rewrite app_nil_r|]. intros ev []. }
  assert (Hstep : forall st' evs0,
    trace st' = trace st ++ Fetch mail email_id :: evs0 ->
    (forall ev, In ev evs0 -> exists l msg, ev = Log l msg) ->
    exists evs, trace (process_ids env rt mail ids st').1 = trace st ++ evs
      /\ forall ev, In ev evs ->
           (exists l msg, ev = Log l msg)
           \/ (exists id, (email_id = id \/ In id ids) /\ ev = Fetch mail id)).
  { intros st' evs0 Htr Hlog. destruct (IH st') as (evs & Hevs & Hin).
    exists (Fetch mail email_id :: evs0 ++ evs). split.
    - rewrite Hevs, Htr, <- app_assoc. done.
    - intros ev [<-|Hev]; [right; eauto|].
      apply in_app_or in Hev as [Hev|Hev]; [left; auto|].
      destruct (Hin ev Hev) as [?|(id & ? & ?)]; [left; done|right; eauto]. }
  assert (Hstop : forall st' (r : result unit) evs0,
    trace st' = trace st ++ Fetch mail email_id :: evs0 ->
    (forall ev, In ev evs0 -> exists l msg, ev = Log l msg) ->
    exists evs, trace (st', r).1 = trace st ++ evs
      /\ forall ev, In ev evs ->
           (exists l msg, ev = Log l msg)
           \/ (exists id, (email_id = id \/ In id ids) /\ ev = Fetch mail id)).
  { intros st' r evs0 Htr Hlog. eexists. split; [exact Htr|].
    intros ev [<-|Hev]; [right; eauto|left; auto]. }
  destruct (fetch env mail email_id) as [[res msg]|e].
  2:{ apply (Hstop _ _ []); [done|intros ev []]. }
  destruct (negb (bool_decide (res = lit "OK"))).
  { apply (Hstep _ [Log WARNING (FailedFetch email_id)]).
    - simpl. rewrite <- app_assoc. done.
    - intros ev [<-|[]]; eauto. }
  destruct (raw_message msg) as [raw|e].
  2:{ apply (Hstop _ _ []); [done|intros ev []]. }
  pose proof (process_email_logs rt (time_time env email_id)
                (message_from_bytes rt raw)) as Hpe.
  destruct (process_email rt (time_time env email_id) (message_from_bytes rt raw))
    as [evs [d|]]; simpl in Hpe.
  2:{ apply (Hstep _ evs); [|done]. simpl. rewrite <- app_assoc. done. }
  destruct (save_to_database_logs (datetime_now env email_id)
              (update_reply env email_id) d
              (emit evs (emit [Fetch mail email_id] st))) as (sevs & Hs & Hslog).
  destruct (save_to_database _ _ d _) as [st' [[]|e]]; simpl in Hs.
  - apply (Hstep _ (evs ++ sevs ++ [Log INFO (ProcessedEmail (subject d))])).
    + simpl. rewrite Hs. rewrite <- !app_assoc. done.
    + intros ev Hev. apply in_app_or in Hev as [Hev|Hev]; [auto|].
      apply in_app_or in Hev as [Hev|[<-|[]]]; eauto.
  - apply (Hstop _ _ (evs ++ sevs)).
    + rewrite Hs. simpl. rewrite <- !app_assoc. done.
    + intros ev Hev. apply in_app_or in Hev as [Hev|Hev]; auto.
Qed.

Lemma logouts_app evs1 evs2 : logouts (evs1 ++ evs2) = (logouts evs1 + logouts evs2)%nat.
Proof. unfold logouts. by rewrite List.filter_app, length_app. Qed.

Lemma logouts_none evs :
  (forall ev, In ev evs -> forall s, ev <> Logout s) -> logouts evs = 0%nat.
Proof.
  unfold logouts. induction evs as [|ev evs IH]; intros H; simpl; [done|].
  destruct ev; simpl; try (apply IH; intros; apply H; by right).
  exfalso. eapply H; [by left|done].
Qed.

Lemma connect_no_logout env : logouts (connect_to_email_server env).1 = 0%nat.
Proof.
  unfold connect_to_email_server. simpl.
  destruct (connect env 0); simpl; [done|].
  destruct (connect env 1); simpl; [done|].
  destruct (connect env 2); done.
Qed.

(** The body of the [try] appends to the trace and never logs out. *)
Lemma sweep_trace env rt mail st :
  exists evs, trace (sweep env rt mail st).1 = trace st ++ evs
    /\ logouts evs = 0%nat.
Proof.
  unfold sweep. destruct mail as [s|].
  2:{ exists []. by rewrite app_nil_r. }
  destruct (select env s) as [[]|e]; [|by exists [Select s]].
  destruct (search env s) as [[status messages]|e].
  2:{ exists [Select s; Search s]. simpl. by rewrite <- app_assoc. }
  destruct (negb (bool_decide (status = lit "OK"))).
  { exists [Select s; Search s; Log WARNING FailedSearch].
    simpl. by rewrite <- !app_assoc. }
  destruct (first_item messages) as [[ids|]|e];
    try (exists [Select s; Search s]; simpl; by rewrite <- app_assoc).
  destruct (split ids) as [|email_id email_ids] eqn:Hids.
  { exists [Select s; Search s; Log INFO NoUnreadEmails].
    simpl. by rewrite <- !app_assoc. }
  destruct (process_ids_trace env rt s (email_id :: email_ids)
              (emit [Search s] (emit [Select s] st))) as (evs & Hevs & Hin).
  exists ([Select s; Search s] ++ evs). split.
  - rewrite Hevs. simpl. by rewrite <- !app_assoc.
  - rewrite logouts_app. simpl. apply logouts_none.
    intros ev Hev s' ->. destruct (Hin _ Hev) as [(l & m & ?)|(id & _ & ?)]; done.
Qed.

(** The [finally] of [process_unread_emails]. *)
Lemma process_unread_emails_logout (env : Env) (rt : Runtime) (st : state) :
  let st' := (process_unread_emails env rt st).1 in
  let r := (process_unread_emails env rt st).2 in
  (forall s, (connect_to_email_server env).2 = Ok (Some s) ->
     logouts (trace st') = S (logouts (trace st))
     /\ (exists evs, trace st' = trace st ++ evs ++ [Logout s])
     /\ r = logout env s)
  /\ (forall e, (connect_to_email_server env).2 = Raise e ->
     logouts (trace st') = logouts (trace st) /\ r = Ok tt).
Proof.
  cbv zeta. unfold process_unread_emails.
  pose proof (connect_no_logout env) as Hc.
  destruct (connect_to_email_server env) as [cevs r0]. simpl in Hc |- *.
  split.
  - intros s ->.
    destruct (sweep_trace env rt (Some s) (emit cevs st)) as (evs & Hevs & Hlo).
    destruct (sweep env rt (Some s) (emit cevs st)) as [st1 r1]. simpl in Hevs.
    assert (exists evs', trace (match r1 with
                                | Ok _ => st1
                                | Raise e => emit [handler e] st1
                                end) = trace st ++ evs' /\ logouts evs' = 0%nat)
      as (evs' & Hevs' & Hlo').
    { destruct r1 as [[]|e].
      - exists (cevs ++ evs). rewrite Hevs, logouts_app, <- app_assoc. split; [done|lia].
      - exists (cevs ++ evs ++ [handler e]). simpl.
        rewrite Hevs, !logouts_app, <- !app_assoc. split; [done|].
        rewrite Hc, Hlo. unfold handler. by destruct (isinstance e ConnectionError). }
    simpl. rewrite Hevs'. split; [|split; [|done]].
    + rewrite !logouts_app, Hlo'. change (logouts [Logout s]) with 1%nat. lia.
    + exists evs'. by rewrite <- app_assoc.
  - intros e ->. simpl. rewrite !logouts_app, Hc. split; [|done].
    assert (logouts [handler e] = 0%nat) as ->; [|lia].
    unfold handler. by destruct (isinstance e ConnectionError).
Qed.

(** C3, as the code has it.  When the session was opened, [logout] is
    called exactly once, as the last action of the method, whatever the
    body did (completed, returned early or raised); the method then ends
    as that call ends: it returns when [logout] returns and raises what
    [logout] raises, since nothing guards the call inside the [finally].
    When the session could not be opened, [logout] is not called and the
    method returns. *)
Theorem process_unread_emails_closes_once (env : Env) (rt : Runtime) (st : state) :
  let st' := (process_unread_emails env rt st).1 in
  let r := (process_unread_emails env rt st).2 in
  (forall s, (connect_to_email_server env).2 = Ok (Some s) ->
     logouts (trace st') = S (logouts (trace st))
     /\ (exists evs, trace st' = trace st ++ evs ++ [Logout s])
     /\ r = logout env s)
  /\ (forall e, (connect_to_email_server env).2 = Raise e ->
     logouts (trace st') = logouts (trace st) /\ r = Ok tt).
Proof. exact (process_unread_emails_logout env rt st). Qed.


(** ** The collection *)

Lemma matches_key id doc : matches id doc = true <-> key_of doc = Some (VStr id).
Proof. unfold matches, key_of. by rewrite bool_decide_eq_true. Qed.

Lemma find_nil_iff id c : find id c = [] <-> ~ In (Some (VStr id)) (map key_of c).
Proof.
  unfold find. induction c as [|doc c IH]; simpl; [tauto|].
  destruct (matches id doc) eqn:Hm.
  - apply matches_key in Hm. split; [done|]. intros H. destruct H. by left.
  - rewrite IH. split; [|tauto]. intros H [Hk|Hin]; [|done].
    apply matches_key in Hk. congruence.
Qed.

Lemma set_first_none id fields c :
  set_first id fields c = None <-> find id c = [].
Proof.
  unfold find. induction c as [|doc c IH]; simpl; [done|].
  destruct (matches id doc); [done|].
  destruct (set_first id fields c); simpl; [|tauto].
  split; [done|]. intros H. apply IH in H. done.
Qed.

(** [$set] with the filter's own key among the fields leaves every
    document's key as it was. *)
Lemma set_first_keys id fields c c' :
  fields !! "message_id" = Some (VStr id) ->
  set_first id fields c = Some c' -> map key_of c' = map key_of c.
Proof.
  intros Hf. revert c'. induction c as [|doc c IH]; intros c'; simpl; [done|].
  destruct (matches id doc) eqn:Hm.
  - intros [= <-]. simpl. f_equal. apply matches_key in Hm. unfold key_of in *.
    rewrite Hm. by apply lookup_union_Some_l.
  - destruct (set_first id fields c) as [r|]; [|done].
    intros [= <-]. simpl. f_equal. by apply IH.
Qed.

Lemma set_first_find id fields c c' :
  fields !! "message_id" = Some (VStr id) ->
  NoDup (map key_of c) ->
  set_first id fields c = Some c' ->
  exists doc, In doc c /\ find id c = [doc] /\ find id c' = [fields ∪ doc].
Proof.
  intros Hf. revert c'. unfold find.
  induction c as [|doc c IH]; intros c' Hnd; simpl; [done|].
  apply NoDup_cons in Hnd as [Hnotin Hnd].
  destruct (matches id doc) eqn:Hm.
  - intros [= <-]. exists doc. simpl.
    assert (matches id (fields ∪ doc) = true) as ->.
    { apply matches_key. unfold key_of. by apply lookup_union_Some_l. }
    apply matches_key in Hm. rewrite Hm in Hnotin.
    assert (List.filter (matches id) c = []) as ->.
    { apply find_nil_iff. by rewrite <- list_elem_of_In. }
    split; [by left|done].
  - destruct (set_first id fields c) as [r|] eqn:Hr; [|done].
    intros [= <-]. destruct (IH r Hnd eq_refl) as (d & Hin & Hd & Hd').
    exists d. simpl. rewrite Hm. split; [by right|done].
Qed.

Lemma length_set_first id fields c c' :
  set_first id fields c = Some c' -> length c' = length c.
Proof.
  revert c'. induction c as [|doc c IH]; intros c'; simpl; [done|].
  destruct (matches id doc); [by intros [= <-]|].
  destruct (set_first id fields c) as [r|]; [|done].
  intros [= <-]. simpl. f_equal. by apply IH.
Qed.

(** The upsert keeps the unique index and leaves exactly one document
    for the key, carrying the fields that were set. *)
Lemma update_one_upsert id fields c :
  fields !! "message_id" = Some (VStr id) ->
  unique_index c ->
  unique_index (update_one id fields c)
  /\ exists doc, find id (update_one id fields c) = [doc] /\ fields ⊆ doc
       /\ (find id c = [] ->
             doc = fields /\ length (update_one id fields c) = S (length c))
       /\ (find id c <> [] ->
             length (update_one id fields c) = length c).
Proof.
  intros Hf Hu. unfold unique_index in *. fold key_of in *. unfold update_one.
  destruct (set_first id fields c) as [c'|] eqn:Hs.
  - rewrite (set_first_keys id fields c c' Hf Hs). split; [done|].
    destruct (set_first_find id fields c c' Hf Hu Hs) as (doc & Hin & Hd & Hd').
    exists (fields ∪ doc). split; [done|]. split; [apply map_union_subseteq_l|].
    split; [rewrite Hd; done|]. intros _. by eapply length_set_first.
  - apply set_first_none in Hs.
    assert (fields ∪ {["message_id" := VStr id]} = fields) as ->.
    { apply map_eq. intros k. rewrite lookup_union.
      destruct (decide (k = "message_id")) as [->|Hk].
      - by rewrite Hf, lookup_singleton_eq.
      - rewrite lookup_singleton_ne by done. by destruct (fields !! k). }
    rewrite map_app. simpl. split.
    + apply NoDup_app. split; [done|]. split; [|apply NoDup_singleton].
      intros k Hk Hk'. apply list_elem_of_singleton in Hk'. subst k.
      unfold key_of in Hk at 1. rewrite Hf in Hk.
      apply find_nil_iff in Hs. apply Hs. by apply list_elem_of_In.
    + exists fields. unfold find in *. rewrite List.filter_app, Hs. simpl.
      assert (matches id fields = true) as -> by by apply matches_key.
      split; [done|]. split; [done|]. split.
      * intros _. split; [done|]. rewrite length_app. simpl. lia.
      * done.
Qed.

Lemma email_dict_lookup d now :
  email_dict d now !! "message_id" = Some (VStr (message_id d))
  /\ email_dict d now !! "sender" = Some (VStr (sender d))
  /\ email_dict d now !! "subject" = Some (VStr (subject d))
  /\ email_dict d now !! "timestamp" = Some (VDate (timestamp d))
  /\ email_dict d now !! "processed_at" = Some (VDate now).
Proof. unfold email_dict. repeat split; by simplify_map_eq. Qed.



Lemma stored_iff id c : stored id c <-> In (Some (VStr id)) (map key_of c).
Proof.
  unfold stored. rewrite find_nil_iff.
  destruct (decide (Some (VStr id) ∈ map key_of c)) as [H|H];
    rewrite list_elem_of_In in H; tauto.
Qed.

(** An update adds the key it is for and removes none. *)
Lemma update_one_keys id fields c k :
  fields !! "message_id" = Some (VStr id) ->
  In k (map key_of (update_one id fields c))
  <-> In k (map key_of c) \/ k = Some (VStr id).
Proof.
  intros Hf. unfold update_one.
  destruct (set_first id fields c) as [c'|] eqn:Hs.
  - rewrite (set_first_keys id fields c c' Hf Hs). split; [tauto|].
    intros [H| ->]; [done|]. apply stored_iff. unfold stored.
    intros Hnil. apply (set_first_none id fields) in Hnil. congruence.
  - rewrite map_app, in_app_iff. simpl.
    assert (key_of (fields ∪ {["message_id" := VStr id]}) = Some (VStr id)) as ->.
    { unfold key_of. by apply lookup_union_Some_l. }
    split; [intros [H|[<-|[]]]; tauto|]. intros [H| ->]; tauto.
Qed.

Lemma save_to_database_stored now d st :
  (save_to_database now None d st).2 = Ok tt
  /\ stored (message_id d) (db (save_to_database now None d st).1).
Proof.
  split; [done|]. simpl. apply stored_iff, update_one_keys; [|by right].
  apply email_dict_lookup.
Qed.

Lemma save_to_database_keeps now reply d st id :
  stored id (db st) -> stored id (db (save_to_database now reply d st).1).
Proof.
  unfold save_to_database. destruct reply as [e|].
  - by destruct (isinstance e PyMongoError).
  - simpl. rewrite !stored_iff. intros H. apply update_one_keys; [|by left].
    apply email_dict_lookup.
Qed.

(** The loop never removes a document. *)
Lemma process_ids_keeps env rt mail ids st id :
  stored id (db st) -> stored id (db (process_ids env rt mail ids st).1).
Proof.
  revert st. induction ids as [|email_id ids IH]; intros st Hst; simpl; [done|].
  destruct (fetch env mail email_id) as [[res msg]|e]; [|done].
  destruct (negb (bool_decide (res = lit "OK"))); [by apply IH|].
  destruct (raw_message msg) as [raw|e]; [|done].
  destruct (process_email rt (time_time env email_id) (message_from_bytes rt raw))
    as [evs [d|]]; [|by apply IH].
  pose proof (save_to_database_keeps (datetime_now env email_id)
    (update_reply env email_id) d (emit evs (emit [Fetch mail email_id] st)) id Hst)
    as Hkeep.
  destruct (save_to_database _ _ d _) as [st' [[]|e]]; [by apply IH|done].
Qed.

Lemma process_ids_trace_mono env rt mail ids st ev :
  In ev (trace st) -> In ev (trace (process_ids env rt mail ids st).1).
Proof.
  intros Hin. destruct (process_ids_trace env rt mail ids st) as (evs & -> & _).
  apply in_or_app. by left.
Qed.

(** A refused fetch costs the loop one warning and nothing else: it goes
    on with the remaining ids, the collection untouched. *)
Lemma process_ids_refused env rt mail email_id rest st :
  refused env mail email_id ->
  process_ids env rt mail (email_id :: rest) st
  = process_ids env rt mail rest
      (emit [Fetch mail email_id; Log WARNING (FailedFetch email_id)] st).
Proof.
  intros (res & msg & Hf & Hres). simpl. rewrite Hf.
  rewrite bool_decide_eq_false_2 by done. simpl. by rewrite emit_emit.
Qed.

Lemma process_ids_persists env rt mail email_id rest st d :
  normalized env rt mail email_id = Some d ->
  update_reply env email_id = None ->
  process_ids env rt mail (email_id :: rest) st
  = process_ids env rt mail rest
      (emit [Log INFO (ProcessedEmail (subject d))]
         (save_to_database (datetime_now env email_id) None d
            (emit [Fetch mail email_id] st)).1).
Proof.
  unfold normalized. intros Hn Hu. simpl.
  destruct (fetch env mail email_id) as [[res msg]|e]; [|done].
  destruct (bool_decide (res = lit "OK")); [|done]. simpl.
  destruct (raw_message msg) as [raw|e]; [|done].
  destruct (process_email rt (time_time env email_id) (message_from_bytes rt raw))
    as [evs d'] eqn:Hpe.
  simpl in Hn. subst d'. apply process_email_some in Hpe as [-> _].
  rewrite Hu. simpl. by rewrite !app_nil_r.
Qed.

(** A list of ids each of which is refused or persists: the loop
    completes, fetches every id, warns about each refused one and
    leaves a document for each one that persists. *)
Lemma process_ids_completes env rt mail ids st :
  Forall (fun id => refused env mail id \/ persists env rt mail id) ids ->
  (process_ids env rt mail ids st).2 = Ok tt
  /\ forall id, In id ids ->
       In (Fetch mail id) (trace (process_ids env rt mail ids st).1)
       /\ (refused env mail id ->
             In (Log WARNING (FailedFetch id))
                (trace (process_ids env rt mail ids st).1))
       /\ (forall d, normalized env rt mail id = Some d ->
             update_reply env id = None ->
             stored (message_id d) (db (process_ids env rt mail ids st).1)).
Proof.
  intros Hall. revert st.
  induction Hall as [|email_id ids Hid Hall IH]; intros st; [by split|].
  assert (Hhere : forall st',
    process_ids env rt mail (email_id :: ids) st = process_ids env rt mail ids st' ->
    In (Fetch mail email_id) (trace st') ->
    (refused env mail email_id -> In (Log WARNING (FailedFetch email_id)) (trace st')) ->
    (forall d, normalized env rt mail email_id = Some d ->
       update_reply env email_id = None -> stored (message_id d) (db st')) ->
    (process_ids env rt mail (email_id :: ids) st).2 = Ok tt
    /\ forall id, In id (email_id :: ids) ->
         In (Fetch mail id) (trace (process_ids env rt mail (email_id :: ids) st).1)
         /\ (refused env mail id ->
               In (Log WARNING (FailedFetch id))
                  (trace (process_ids env rt mail (email_id :: ids) st).1))
         /\ (forall d, normalized env rt mail id = Some d ->
               update_reply env id = None ->
               stored (message_id d)
                 (db (process_ids env rt mail (email_id :: ids) st).1))).
  { intros st' -> Hf Hw Hs. destruct (IH st') as [Hr Hrest]. split; [done|].
    intros id [<-|Hin]; [|by apply Hrest].
    split; [by apply process_ids_trace_mono|].
    split; [intros; by apply process_ids_trace_mono, Hw|].
    intros d Hn Hu. by apply process_ids_keeps, Hs. }
  destruct Hid as [Href|[[d Hn] Hu]].
  - apply (Hhere _ (process_ids_refused env rt mail email_id ids st Href)).
    + rewrite trace_emit. apply in_or_app. right. by left.
    + intros _. rewrite trace_emit. apply in_or_app. right. right. by left.
    + intros d' Hn. destruct Href as (res & msg & Hf & Hres).
      unfold normalized in Hn. rewrite Hf in Hn.
      by rewrite bool_decide_eq_false_2 in Hn.
  - apply (Hhere _ (process_ids_persists env rt mail email_id ids st d Hn Hu)).
    + rewrite trace_emit. apply in_or_app. left. simpl.
      apply in_or_app. left. apply in_or_app. right. by left.
    + intros (res & msg & Hf & Hres). unfold normalized in Hn. rewrite Hf in Hn.
      by rewrite bool_decide_eq_false_2 in Hn.
    + intros d' Hn' _. rewrite db_emit. assert (d' = d) as -> by congruence.
      apply save_to_database_stored.
Qed.


(** The sweep up to the loop, when the search is answered OK. *)
Lemma process_unread_emails_loop env rt st s cevs ids more :
  connect_to_email_server env = (cevs, Ok (Some s)) ->
  select env s = Ok tt ->
  search env s = Ok (lit "OK", Some ids :: more) ->
  split ids <> [] ->
  process_unread_emails env rt st
  = let '(st1, r1) := process_ids env rt s (split ids)
                        (emit (cevs ++ [Select s; Search s]) st) in
    (emit (match r1 with Ok _ => [] | Raise e => [handler e] end ++ [Logout s]) st1,
     logout env s).
Proof.
  intros Hc Hsel Hsearch Hne. unfold process_unread_emails, sweep.
  rewrite Hc, Hsel, Hsearch. rewrite bool_decide_eq_true_2 by done. simpl.
  destruct (split ids) as [|email_id email_ids] eqn:Hids; [done|].
  rewrite !emit_emit. cbn [app].
  destruct (process_ids env rt s (email_id :: email_ids) _) as [st1 [[]|e]].
  - done.
  - by rewrite emit_emit.
Qed.

(** The document an update leaves carries the fields that were set. *)
Lemma set_first_has id fields c c' :
  set_first id fields c = Some c' ->
  exists doc, In doc c' /\ fields ⊆ doc.
Proof.
  revert c'. induction c as [|doc c IH]; intros c'; simpl; [done|].
  destruct (matches id doc).
  - intros [= <-]. exists (fields ∪ doc). split; [by left|].
    apply map_union_subseteq_l.
  - destruct (set_first id fields c) as [r|]; [|done].
    intros [= <-]. destruct (IH r eq_refl) as (doc' & Hin & Hsub).
    exists doc'. split; [by right|done].
Qed.

Lemma update_one_has id fields c :
  exists doc, In doc (update_one id fields c) /\ fields ⊆ doc.
Proof.
  unfold update_one. destruct (set_first id fields c) as [c'|] eqn:Hs.
  - by apply (set_first_has id fields c).
  - exists (fields ∪ {[ "message_id" := VStr id ]}).
    split; [apply in_or_app; right; by left|apply map_union_subseteq_l].
Qed.

(** An update leaves the documents of other keys where they are. *)
Lemma update_one_keeps_doc id fields c doc :
  In doc c -> matches id doc = false -> In doc (update_one id fields c).
Proof.
  intros Hin Hm. unfold update_one.
  destruct (set_first id fields c) as [c'|] eqn:Hs;
    [|apply in_or_app; by left].
  revert c' Hs. induction c as [|doc0 c IH]; intros c'; simpl; [done|].
  destruct (matches id doc0) eqn:Hm0.
  - intros [= <-]. destruct Hin as [->|Hin]; [congruence|by right].
  - destruct (set_first id fields c) as [r|]; [|done].
    intros [= <-]. destruct Hin as [->|Hin]; [by left|].
    right. by apply IH.
Qed.

(** After a sequence of upserts, each of its records has a document,
    and that document carries the fields of a record of the sequence
    with the same [message_id]. *)
Lemma upserts_fields ws c w :
  In w ws ->
  exists w' doc,
    In w' ws /\ message_id w'.1 = message_id w.1
    /\ In doc (fold_left upsert ws c)
    /\ email_dict w'.1 w'.2 ⊆ doc.
Proof.
  induction ws as [|x ws0 IH] using rev_ind; [done|].
  rewrite fold_left_app. simpl. intros Hin.
  destruct (decide (message_id x.1 = message_id w.1)) as [Heq|Hne].
  - destruct (update_one_has (message_id x.1) (email_dict x.1 x.2)
                (fold_left upsert ws0 c)) as (doc & Hdoc & Hsub).
    exists x, doc. split; [apply in_or_app; right; by left|done].
  - apply in_app_or in Hin as [Hin|[->|[]]]; [|done].
    destruct (IH Hin) as (w' & doc & Hw' & Hid & Hdoc & Hsub).
    exists w', doc. split; [apply in_or_app; by left|]. split; [done|].
    split; [|done]. unfold upsert at 1. apply update_one_keeps_doc; [done|].
    unfold matches, key_of. apply bool_decide_eq_false_2.
    rewrite (lookup_weaken _ _ _ _ (proj1 (email_dict_lookup w'.1 w'.2)) Hsub).
    intros [= H]. congruence.
Qed.

Lemma saved_in env rt mail ids id d :
  In id ids -> normalized env rt mail id = Some d ->
  In (d, datetime_now env id) (saved env rt mail ids).
Proof.
  induction ids as [|email_id ids IH]; simpl; [done|].
  intros [->|Hin] Hn.
  - rewrite Hn. by left.
  - destruct (normalized env rt mail email_id); [right|]; by apply IH.
Qed.

Lemma in_saved env rt mail ids w :
  In w (saved env rt mail ids) ->
  exists id, In id ids /\ normalized env rt mail id = Some w.1
             /\ w.2 = datetime_now env id.
Proof.
  induction ids as [|email_id ids IH]; simpl; [done|].
  destruct (normalized env rt mail email_id) as [d|] eqn:Hn.
  - intros [<-|Hin]; [exists email_id; split; [by left|done]|].
    destruct (IH Hin) as (id & H1 & H2). exists id. split; [by right|done].
  - intros Hin. destruct (IH Hin) as (id & H1 & H2).
    exists id. split; [by right|done].
Qed.

(** A loop over ids each of which is refused or persists makes exactly
    the writes [saved] lists. *)
Lemma process_ids_saved env rt mail ids st :
  Forall (fun id => refused env mail id \/ persists env rt mail id) ids ->
  db (process_ids env rt mail ids st).1
  = fold_left upsert (saved env rt mail ids) (db st).
Proof.
  intros Hall. revert st.
  induction Hall as [|email_id ids Hid Hall IH]; intros st; [done|].
  destruct Hid as [Href|[[d Hn] Hu]].
  - rewrite (process_ids_refused env rt mail email_id ids st Href), IH.
    destruct Href as (res & msg & Hf & Hres).
    simpl. unfold normalized. rewrite Hf.
    by rewrite bool_decide_eq_false_2.
  - rewrite (process_ids_persists env rt mail email_id ids st d Hn Hu), IH.
    simpl. by rewrite Hn.
Qed.

(** The sweep when the search answer lists no id. *)
Lemma process_unread_emails_none_listed env rt st s cevs ids more :
  connect_to_email_server env = (cevs, Ok (Some s)) ->
  select env s = Ok tt ->
  search env s = Ok (lit "OK", Some ids :: more) ->
  split ids = [] ->
  process_unread_emails env rt st
  = (emit (cevs ++ [Select s; Search s; Log INFO NoUnreadEmails; Logout s]) st,
     logout env s).
Proof.
  intros Hc Hsel Hsearch Hnone. unfold process_unread_emails, sweep.
  rewrite Hc, Hsel, Hsearch. rewrite bool_decide_eq_true_2 by done. simpl.
  rewrite Hnone. by rewrite !emit_emit, <- ?app_assoc.
Qed.

(** C7, as the code has it.  In a sweep whose session opens and selects
    the inbox: a search answered with a status other than OK writes one
    warning and the session is closed exactly once; a fetch answered
    with a status other than OK writes one warning and the loop goes on
    with the ids after it from an unchanged collection; and when every
    id of the search answer is either refused in this way or persists,
    every id was fetched, every refused one warned about, the
    collection is the one found with the record of each other id
    upserted in list order, and each of these records has a document
    that carries the five fields of a listed record with the same
    [message_id].  In each case the method ends as the logout ends: it
    returns when the logout returns and raises what the logout
    raises. *)
Theorem non_ok_status_is_skipped
    (env : Env) (rt : Runtime) (st : state) (s : session) (cevs : list event) :
  connect_to_email_server env = (cevs, Ok (Some s)) ->
  select env s = Ok tt ->
  let st' := (process_unread_emails env rt st).1 in
  let r := (process_unread_emails env rt st).2 in
  (forall status messages,
     search env s = Ok (status, messages) -> status <> lit "OK" ->
     r = logout env s
     /\ st' = emit (cevs ++ [Select s; Search s; Log WARNING FailedSearch; Logout s]) st
     /\ logouts (trace st') = S (logouts (trace st)))
  /\ (forall email_id rest st1,
        refused env s email_id ->
        process_ids env rt s (email_id :: rest) st1
        = process_ids env rt s rest
            (emit [Fetch s email_id; Log WARNING (FailedFetch email_id)] st1)
        /\ db (emit [Fetch s email_id; Log WARNING (FailedFetch email_id)] st1)
           = db st1)
  /\ (forall ids more,
        search env s = Ok (lit "OK", Some ids :: more) ->
        Forall (fun id => refused env s id \/ persists env rt s id) (split ids) ->
        r = logout env s
        /\ logouts (trace st') = S (logouts (trace st))
        /\ db st' = fold_left upsert (saved env rt s (split ids)) (db st)
        /\ forall id, In id (split ids) ->
             In (Fetch s id) (trace st')
             /\ (refused env s id -> In (Log WARNING (FailedFetch id)) (trace st'))
             /\ (forall d, normalized env rt s id = Some d ->
                   update_reply env id = None ->
                   stored (message_id d) (db st')
                   /\ exists doc id' d',
                        In doc (db st')
                        /\ In id' (split ids)
                        /\ normalized env rt s id' = Some d'
                        /\ message_id d' = message_id d
                        /\ doc !! "message_id" = Some (VStr (message_id d))
                        /\ doc !! "sender" = Some (VStr (sender d'))
                        /\ doc !! "subject" = Some (VStr (subject d'))
                        /\ doc !! "timestamp" = Some (VDate (timestamp d'))
                        /\ doc !! "processed_at"
                           = Some (VDate (datetime_now env id')))).
Proof.
  intros Hc Hsel st' r.
  destruct (process_unread_emails_logout env rt st) as [Hclose _].
  specialize (Hclose s). rewrite Hc in Hclose.
  destruct (Hclose eq_refl) as (Hlo & _ & Hr). fold st' in Hlo. fold r in Hr.
  split; [|split].
  - intros status messages Hsearch Hstatus. split; [done|]. split; [|done].
    subst st'. unfold process_unread_emails, sweep.
    rewrite Hc, Hsel, Hsearch. rewrite bool_decide_eq_false_2 by done. simpl.
    by rewrite !emit_emit, <- ?app_assoc.
  - intros email_id rest st1 Href. split; [|done].
    by apply process_ids_refused.
  - intros ids more Hsearch Hall. split; [done|]. split; [done|].
    assert (db st' = fold_left upsert (saved env rt s (split ids)) (db st)) as Hdb.
    { subst st'. destruct (split ids) as [|i0 is0] eqn:Hids.
      - by rewrite (process_unread_emails_none_listed env rt st s cevs ids more
                      Hc Hsel Hsearch Hids).
      - assert (split ids <> []) as Hne by (by rewrite Hids).
        rewrite (process_unread_emails_loop env rt st s cevs ids more
                   Hc Hsel Hsearch Hne).
        rewrite Hids.
        pose proof (process_ids_saved env rt s (i0 :: is0)
                      (emit (cevs ++ [Select s; Search s]) st) Hall) as Hsaved.
        destruct (process_ids env rt s (i0 :: is0) _) as [st1 r1].
        simpl in Hsaved. simpl. done. }
    split; [done|].
    intros id Hin.
    assert (split ids <> []) as Hne by (intros Heq; by rewrite Heq in Hin).
    assert (In (Fetch s id) (trace st')
            /\ (refused env s id -> In (Log WARNING (FailedFetch id)) (trace st'))
            /\ (forall d, normalized env rt s id = Some d ->
                  update_reply env id = None -> stored (message_id d) (db st')))
      as (Hf & Hw & Hs).
    { subst st'.
      rewrite (process_unread_emails_loop env rt st s cevs ids more
                 Hc Hsel Hsearch Hne).
      destruct (process_ids_completes env rt s (split ids)
                  (emit (cevs ++ [Select s; Search s]) st) Hall) as [Hok Hids].
      destruct (Hids id Hin) as (Hf & Hw & Hs).
      destruct (process_ids env rt s (split ids) _) as [st1 r1]. simpl in *.
      split; [apply in_or_app; by left|].
      split; [intros; apply in_or_app; left; by apply Hw|done]. }
    split; [done|]. split; [done|].
    intros d Hn Hu. split; [by apply Hs|].
    destruct (upserts_fields (saved env rt s (split ids)) (db st)
                (d, datetime_now env id) (saved_in env rt s _ id d Hin Hn))
      as (w' & doc & Hw' & Hid & Hdoc & Hsub).
    destruct (in_saved env rt s _ w' Hw') as (id' & Hin' & Hn' & Hnow).
    destruct (email_dict_lookup w'.1 w'.2) as (H1 & H2 & H3 & H4 & H5).
    exists doc, id', w'.1. rewrite Hdb. simpl in Hid.
    split; [done|]. split; [done|]. split; [done|]. split; [done|].
    rewrite <- Hid, <- Hnow.
    repeat split; by eapply lookup_weaken.
Qed.


(** ** process_email *)

(** The join is the concatenation, in list order, of what the segments
    decode to. *)
Lemma join_segments_concat rt segs texts :
  Forall2 (fun t s => decode_segment rt t = Ok s) segs texts ->
  join_segments rt segs = Ok (concat texts).
Proof.
  induction 1 as [|t s segs texts Ht _ IH]; simpl; [done|].
  rewrite Ht, IH. done.
Qed.

(** The first segment that does not decode ends the join with its
    exception. *)
Lemma join_segments_raise rt before t rest texts e :
  Forall2 (fun t s => decode_segment rt t = Ok s) before texts ->
  decode_segment rt t = Raise e ->
  join_segments rt (before ++ t :: rest) = Raise e.
Proof.
  induction 1 as [|t' s segs texts' Ht _ IH]; simpl; intros He.
  - by rewrite He.
  - rewrite Ht. simpl. by rewrite IH.
Qed.

Lemma process_email_ok rt now m subj snd ts secs :
  extract_subject rt m = Ok subj ->
  extract_sender rt m = Ok snd ->
  extract_timestamp rt now m = Ok ts ->
  timestamp_of rt ts = Ok secs ->
  process_email rt now m
  = ([], Some {| message_id := default (lit "NO_ID_" ++ float_str rt secs)
                                 (get m (lit "message-id"));
                 sender := snd; subject := subj; timestamp := ts |}).
Proof.
  intros Hsubj Hsnd Hts Hsecs. unfold process_email, process_email_body.
  rewrite Hsubj. simpl. rewrite Hsnd. simpl. rewrite Hts. simpl.
  rewrite Hsecs. done.
Qed.

Lemma process_email_skips rt now m e :
  process_email_body rt now m = Raise e ->
  (process_email rt now m).2 = None
  /\ (process_email rt now m).1
     = [if isinstance e KeyError
        then Log WARNING (MalformedEmail e)
        else Log ERROR (ErrorProcessingMessage e)].
Proof.
  intros He. unfold process_email. rewrite He.
  by destruct (isinstance e KeyError).
Qed.

(** What a returned record was made of. *)
Lemma process_email_returns rt now m d :
  (process_email rt now m).2 = Some d ->
  extract_subject rt m = Ok (subject d)
  /\ extract_sender rt m = Ok (sender d)
  /\ extract_timestamp rt now m = Ok (timestamp d)
  /\ exists secs,
       timestamp_of rt (timestamp d) = Ok secs
       /\ message_id d
          = default (lit "NO_ID_" ++ float_str rt secs) (get m (lit "message-id")).
Proof.
  unfold process_email, process_email_body.
  destruct (extract_subject rt m) as [subj|e]; simpl;
    [|by destruct (isinstance e KeyError)].
  destruct (extract_sender rt m) as [snd|e]; simpl;
    [|by destruct (isinstance e KeyError)].
  destruct (extract_timestamp rt now m) as [ts|e]; simpl;
    [|by destruct (isinstance e KeyError)].
  destruct (timestamp_of rt ts) as [secs|e] eqn:Hsecs; simpl;
    [|by destruct (isinstance e KeyError)].
  intros [= <-]. simpl. repeat split; try done. by exists secs.
Qed.

(** [None] is returned exactly when a step raises. *)
Lemma process_email_none rt now m :
  (process_email rt now m).2 = None
  <-> exists e,
        extract_subject rt m = Raise e
        \/ extract_sender rt m = Raise e
        \/ extract_timestamp rt now m = Raise e
        \/ exists ts, extract_timestamp rt now m = Ok ts
                      /\ timestamp_of rt ts = Raise e.
Proof.
  unfold process_email, process_email_body.
  destruct (extract_subject rt m) as [subj|e]; simpl.
  2:{ split; [intros _; exists e; by left|intros _; by destruct (isinstance e KeyError)]. }
  destruct (extract_sender rt m) as [snd|e]; simpl.
  2:{ split; [intros _; exists e; right; by left
             |intros _; by destruct (isinstance e KeyError)]. }
  destruct (extract_timestamp rt now m) as [ts|e]; simpl.
  2:{ split; [intros _; exists e; right; right; by left
             |intros _; by destruct (isinstance e KeyError)]. }
  destruct (timestamp_of rt ts) as [secs|e] eqn:Hsecs; simpl.
  - split; [done|].
    intros (e & [H|[H|[H|(ts' & [= <-] & H)]]]); congruence.
  - split; [|intros _; by destruct (isinstance e KeyError)].
    intros _. exists e. right. right. right. by exists ts.
Qed.


(** C5 fails on the code.  [str(t[0], t[1] or 'utf-8')] decodes with the
    strict handler, so octets that are invalid in the declared charset
    raise there; the handler at the end of [process_email] turns that
    into a skipped message.  The [errors='replace'] of the source is
    applied to octets that [encode] has just produced, which are always
    valid: it hands back the text it was given and substitutes nothing.
    At the subject [=?utf-8?b?/w==?=] (the single octet FF) the result
    is [None] and one error line. *)
Theorem undecodable_subject_is_skipped :
  (forall rt now m h before t rest texts e,
     get m (lit "subject") = Some h -> truthy h = true ->
     decode_header rt h = Ok (before ++ t :: rest) ->
     Forall2 (fun t s => decode_segment rt t = Ok s) before texts ->
     decode_segment rt t = Raise e ->
     (process_email rt now m).2 = None)
  /\ (forall s s', reencode s = Ok s' -> s' = s)
  /\ process_email Examples.runtime Examples.clock Examples.undecodable_subject
     = ([Log ERROR (ErrorProcessingMessage
                      (Exn UnicodeDecodeError (lit "invalid utf-8")))],
        None).
Proof.
  split; [|split].
  - intros rt now m h before t rest texts e Hget Htruthy Hdec Hbefore Ht.
    apply (process_email_skips rt now m e).
    unfold process_email_body, extract_subject.
    rewrite Hget. simpl. rewrite Htruthy, Hdec. simpl.
    by rewrite (join_segments_raise rt before t rest texts e Hbefore Ht).
  - exact reencode_id.
  - vm_compute. reflexivity.
Qed.

(** C6, as the code has it.  A subject whose segments all decode: each
    segment with bytes is decoded by the codec of its declared charset,
    by UTF-8 when none or an empty one is declared, and a segment that
    is text already is taken as it is.  Every record returned for such
    a message has as its subject the concatenation of the decoded
    segments in the order of the header; a record is returned when,
    besides, the joined text can be encoded as UTF-8 and the sender and
    the timestamp are extracted without an exception; when the joined
    text cannot be encoded, [None] is returned.  A message without a
    subject header: every record returned has the placeholder
    "[No subject]" as its subject, and a record is returned when the
    sender and the timestamp are extracted without an exception.
    Whatever the subject, an exception in the sender or the timestamp
    gives [None]. *)
Theorem subject_segments_are_joined
    (rt : Runtime) (now : pyfloat) (m : Message) :
  (forall h segs texts,
     get m (lit "subject") = Some h -> truthy h = true ->
     decode_header rt h = Ok segs ->
     Forall2 (fun t s => decode_segment rt t = Ok s) segs texts ->
     (forall b snd ts secs,
        utf8_encode (concat texts) = Ok b ->
        extract_sender rt m = Ok snd ->
        extract_timestamp rt now m = Ok ts ->
        timestamp_of rt ts = Ok secs ->
        exists email_data,
          process_email rt now m = ([], Some email_data)
          /\ subject email_data = concat texts)
     /\ (forall email_data,
           (process_email rt now m).2 = Some email_data ->
           subject email_data = concat texts)
     /\ (forall e, utf8_encode (concat texts) = Raise e ->
           (process_email rt now m).2 = None))
  /\ (forall b cs, cs <> [] ->
        decode_segment rt (SegBytes b, Some cs) = str_decode rt b cs)
  /\ (forall b, decode_segment rt (SegBytes b, None) = str_decode rt b (lit "utf-8"))
  /\ (forall b, decode_segment rt (SegBytes b, Some [])
                = str_decode rt b (lit "utf-8"))
  /\ (forall s cs, decode_segment rt (SegStr s, cs) = Ok s)
  /\ (get m (lit "subject") = None ->
      decode_header rt no_subject = Ok [(SegStr no_subject, None)] ->
      (forall snd ts secs,
         extract_sender rt m = Ok snd ->
         extract_timestamp rt now m = Ok ts ->
         timestamp_of rt ts = Ok secs ->
         exists email_data,
           process_email rt now m = ([], Some email_data)
           /\ subject email_data = lit "[No subject]")
      /\ (forall email_data,
            (process_email rt now m).2 = Some email_data ->
            subject email_data = lit "[No subject]"))
  /\ (forall e,
        extract_sender rt m = Raise e
        \/ extract_timestamp rt now m = Raise e
        \/ (exists ts, extract_timestamp rt now m = Ok ts
                       /\ timestamp_of rt ts = Raise e) ->
        (process_email rt now m).2 = None).
Proof.
  split; [|split; [|split; [|split; [|split; [|split]]]]].
  - intros h segs texts Hget Htruthy Hdec Hsegs.
    assert (extract_subject rt m = reencode (concat texts)) as Hsubj.
    { unfold extract_subject. rewrite Hget. simpl. rewrite Htruthy, Hdec. simpl.
      by rewrite (join_segments_concat rt segs texts Hsegs). }
    split; [|split].
    + intros b snd ts secs Henc Hsnd Hts Hsecs.
      rewrite (reencode_encodable _ b Henc) in Hsubj.
      rewrite (process_email_ok rt now m _ snd ts secs Hsubj Hsnd Hts Hsecs).
      eexists. split; done.
    + intros d Hd.
      destruct (process_email_returns rt now m d Hd) as (Hs & _).
      rewrite Hsubj in Hs. by apply reencode_id in Hs.
    + intros e He. apply process_email_none.
      destruct (reencode (concat texts)) as [s|e'] eqn:Hre.
      * unfold reencode in Hre. rewrite He in Hre. done.
      * exists e'. left. by rewrite Hsubj.
  - intros b [|c cs] Hcs; done.
  - done.
  - done.
  - done.
  - intros Hget Hdec.
    assert (extract_subject rt m = Ok no_subject) as Hsubj.
    { unfold extract_subject. rewrite Hget. simpl. rewrite Hdec. simpl.
      by apply (reencode_encodable _ no_subject). }
    split.
    + intros snd ts secs Hsnd Hts Hsecs.
      rewrite (process_email_ok rt now m _ snd ts secs Hsubj Hsnd Hts Hsecs).
      eexists. split; done.
    + intros d Hd.
      destruct (process_email_returns rt now m d Hd) as (Hs & _).
      rewrite Hsubj in Hs. by injection Hs as <-.
  - intros e He. apply process_email_none. exists e. tauto.
Qed.

(** C9, as the code has it.  A subject header that is there and empty:
    the test [if subject:] fails and nothing is decoded.  Every record
    returned for such a message has the empty string as its subject,
    not the placeholder (which stands in only for a header that is
    absent); a record is returned when the sender and the timestamp are
    extracted without an exception, and [None] exactly when one of
    them raises. *)
Theorem empty_subject_stays_empty
    (rt : Runtime) (now : pyfloat) (m : Message) :
  get m (lit "subject") = Some [] ->
  extract_subject rt m = Ok []
  /\ (forall snd ts secs,
        extract_sender rt m = Ok snd ->
        extract_timestamp rt now m = Ok ts ->
        timestamp_of rt ts = Ok secs ->
        exists email_data,
          process_email rt now m = ([], Some email_data)
          /\ subject email_data = []
          /\ subject email_data <> no_subject)
  /\ (forall email_data,
        (process_email rt now m).2 = Some email_data ->
        subject email_data = [] /\ subject email_data <> no_subject)
  /\ ((process_email rt now m).2 = None
      <-> exists e,
            extract_sender rt m = Raise e
            \/ extract_timestamp rt now m = Raise e
            \/ exists ts, extract_timestamp rt now m = Ok ts
                          /\ timestamp_of rt ts = Raise e).
Proof.
  intros Hget.
  assert (extract_subject rt m = Ok []) as Hsubj.
  { unfold extract_subject. by rewrite Hget. }
  split; [done|]. split; [|split].
  - intros snd ts secs Hsnd Hts Hsecs.
    rewrite (process_email_ok rt now m _ snd ts secs Hsubj Hsnd Hts Hsecs).
    eexists. split; [done|]. split; done.
  - intros d Hd.
    destruct (process_email_returns rt now m d Hd) as (Hs & _).
    rewrite Hsubj in Hs. injection Hs as <-. done.
  - rewrite process_email_none. split.
    + intros (e & [H|H]); [congruence|]. by exists e.
    + intros (e & H). exists e. by right.
Qed.

Lemma bind_raise {A B} (r : result A) (k : A -> result B) e :
  (r ≫= k) = Raise e -> r = Raise e \/ exists a, r = Ok a /\ k a = Raise e.
Proof. destruct r as [a|e']; simpl; [eauto|]. intros [= ->]. by left. Qed.

Lemma reencode_no_KeyError s e :
  reencode s = Raise e -> isinstance e KeyError = false.
Proof.
  intros H. apply reencode_raise in H. destruct e as [c t]. simpl in H. by subst c.
Qed.

Lemma join_segments_no_KeyError rt segs e :
  (forall b cs, raises_KeyError (str_decode rt b cs) = false) ->
  join_segments rt segs = Raise e -> isinstance e KeyError = false.
Proof.
  intros Hlib. induction segs as [|[seg cs] segs IH]; simpl; [done|].
  intros H. apply bind_raise in H as [H|(s & _ & H)].
  - unfold decode_segment in H. destruct seg as [b|s]; simpl in H; [|done].
    specialize (Hlib b (charset_or_utf8 cs)). by rewrite H in Hlib.
  - apply bind_raise in H as [H|(r & _ & H)]; [by apply IH|done].
Qed.

(** No statement of the [try] body raises a [KeyError], provided the
    library calls do not. *)
Lemma process_email_body_no_KeyError rt now m e :
  no_KeyError rt ->
  process_email_body rt now m = Raise e -> isinstance e KeyError = false.
Proof.
  intros (Hdh & Hsd & Hmk & Hft & Hto) H. unfold process_email_body in H.
  apply bind_raise in H as [H|(subj & _ & H)].
  { unfold extract_subject in H.
    destruct (truthy _); [|done].
    apply bind_raise in H as [H|(segs & _ & H)].
    { specialize (Hdh (default no_subject (get m (lit "subject")))).
      by rewrite H in Hdh. }
    apply bind_raise in H as [H|(joined & _ & H)].
    - by apply (join_segments_no_KeyError rt segs).
    - by apply (reencode_no_KeyError joined). }
  apply bind_raise in H as [H|(snd & _ & H)].
  { by apply (reencode_no_KeyError _ e H). }
  apply bind_raise in H as [H|(ts & _ & H)].
  { unfold extract_timestamp in H.
    apply bind_raise in H as [H|(secs & _ & H)].
    - destruct (parsedate_tz rt _) as [d|]; [|done].
      specialize (Hmk d). by rewrite H in Hmk.
    - specialize (Hft secs). by rewrite H in Hft. }
  apply bind_raise in H as [H|(secs & _ & H)]; [|done].
  specialize (Hto ts). by rewrite H in Hto.
Qed.

(** C10.  Provided the library calls raise no [KeyError]: no exception
    of the [try] body is a [KeyError] (every header is read with [get],
    which is total), so the branch that logs the warning about a missing
    key is never taken, and a message is skipped only through the
    catch-all, with its error line.  [process_email] itself never
    raises: it returns a record or [None]. *)
Theorem KeyError_branch_is_unreachable (rt : Runtime) (now : pyfloat) (m : Message) :
  no_KeyError rt ->
  (forall e, process_email_body rt now m = Raise e -> isinstance e KeyError = false)
  /\ (forall e, ~ In (Log WARNING (MalformedEmail e)) (process_email rt now m).1)
  /\ ((process_email rt now m).2 = None ->
      exists e, process_email_body rt now m = Raise e
        /\ (process_email rt now m).1 = [Log ERROR (ErrorProcessingMessage e)])
  /\ (forall name, get m name = None \/ exists v, get m name = Some v).
Proof.
  intros Hlib.
  assert (Hbody : forall e, process_email_body rt now m = Raise e ->
                            isinstance e KeyError = false).
  { intros e. by apply process_email_body_no_KeyError. }
  split; [done|]. unfold process_email.
  destruct (process_email_body rt now m) as [d|e] eqn:Hb.
  - split; [intros e []|]. split; [done|].
    intros name. destruct (get m name); eauto.
  - rewrite (Hbody e eq_refl). split.
    + intros e' [H|[]]. discriminate.
    + split; [eauto|]. intros name. destruct (get m name); eauto.
Qed.

(** ** The theorems at the examples *)

Section Witnesses.
Import Examples MoreExamples.



(** Two failures, then success: the session of the third attempt, two
    waits and three attempts. *)
Lemma connect_to_email_server_witness :
  first_success retrying 2 (Session 2)
  /\ (connect_to_email_server retrying).2 = Ok (Some (Session 2))
  /\ length (List.filter is_sleep (connect_to_email_server retrying).1) = 2%nat
  /\ length (List.filter is_connect (connect_to_email_server retrying).1) = 3%nat.
Proof.
  assert (first_success retrying 2 (Session 2)) as Hfirst.
  { split; [reflexivity|]. intros j Hj.
    exists (Exn IMAP4_error (lit "LOGIN failed")).
    destruct j as [|[|j]]; [reflexivity|reflexivity|lia]. }
  split; [exact Hfirst|].
  destruct (connect_to_email_server_bounded_retry retrying)
    as (_ & _ & _ & _ & _ & Hok & _).
  destruct (Hok 2%nat (Session 2) ltac:(lia) Hfirst) as (Hr & _ & Hc & Hs).
  auto.
Defined.

(** C3 as stated fails: a session that opened, and a logout that raises
    because the connection is gone.  The exception leaves
    [process_unread_emails]. *)
Lemma close_can_crash_the_sweep :
  (connect_to_email_server logout_fails).2 = Ok (Some (Session 0))
  /\ logouts (trace (process_unread_emails logout_fails runtime empty).1) = 1%nat
  /\ (process_unread_emails logout_fails runtime empty).2 = Raise connection_lost
  /\ ~ (forall env rt st s,
          (connect_to_email_server env).2 = Ok (Some s) ->
          logouts (trace (process_unread_emails env rt st).1)
            = S (logouts (trace st))
          /\ (process_unread_emails env rt st).2 = Ok tt).
Proof.
  split; [reflexivity|]. split; [vm_compute; reflexivity|].
  split; [vm_compute; reflexivity|].
  intros H.
  destruct (H logout_fails runtime empty (Session 0) eq_refl) as [_ Hr].
  vm_compute in Hr. discriminate.
Qed.

Lemma process_unread_emails_closes_once_witness :
  logouts (trace (process_unread_emails logout_fails runtime empty).1) = 1%nat
  /\ (process_unread_emails logout_fails runtime empty).2
     = logout logout_fails (Session 0).
Proof.
  destruct (process_unread_emails_closes_once logout_fails runtime empty)
    as [Hopen _].
  destruct (Hopen (Session 0) eq_refl) as (Hlo & _ & Hr).
  split; [exact Hlo|exact Hr].
Defined.



(** The text of the two encoded words, in their order; the placeholder
    for the message without a subject. *)
Lemma subject_segments_are_joined_witness :
  (exists email_data,
     process_email runtime clock two_segments = ([], Some email_data)
     /\ subject email_data
        = concat [lit "caf" ++ [233]; lit " cr" ++ [232] ++ lit "me"])
  /\ (exists email_data,
        process_email runtime clock no_subject_header = ([], Some email_data)
        /\ subject email_data = lit "[No subject]").
Proof.
  assert (extract_sender runtime two_segments = Ok (lit "ann@example.org"))
    as Hsnd by (vm_compute; reflexivity).
  assert (extract_timestamp runtime clock two_segments
          = Ok (Datetime 1704067200000000)) as Hts by (vm_compute; reflexivity).
  assert (Forall2 (fun t s => decode_segment runtime t = Ok s)
            [(SegBytes (lit "caf" ++ [0xC3; 0xA9]), Some (lit "utf-8"));
             (SegBytes (lit " cr" ++ [0xE8] ++ lit "me"), Some (lit "iso-8859-1"))]
            [lit "caf" ++ [233]; lit " cr" ++ [232] ++ lit "me"]) as Hsegs.
  { apply Forall2_cons_2; [vm_compute; reflexivity|].
    apply Forall2_cons_2; [vm_compute; reflexivity|]. apply Forall2_nil_2. }
  assert (utf8_encode (concat [lit "caf" ++ [233]; lit " cr" ++ [232] ++ lit "me"])
          = Ok (lit "caf" ++ [0xC3; 0xA9] ++ lit " cr" ++ [0xC3; 0xA8] ++ lit "me"))
    as Henc by (vm_compute; reflexivity).
  assert (extract_sender runtime no_subject_header = Ok (lit "ann@example.org"))
    as Hsnd' by (vm_compute; reflexivity).
  assert (extract_timestamp runtime clock no_subject_header
          = Ok (Datetime 1704067200000000)) as Hts' by (vm_compute; reflexivity).
  split.
  - exact (proj1 (proj1 (subject_segments_are_joined runtime clock two_segments)
                    two_charsets _ _ eq_refl eq_refl eq_refl Hsegs)
             _ (lit "ann@example.org") (Datetime 1704067200000000)
             (Float 1704067200000000) Henc Hsnd Hts eq_refl).
  - exact (proj1 (proj1 (proj2 (proj2 (proj2 (proj2 (proj2
             (subject_segments_are_joined runtime clock no_subject_header))))))
             eq_refl eq_refl)
             (lit "ann@example.org") (Datetime 1704067200000000)
             (Float 1704067200000000) Hsnd' Hts' eq_refl).
Defined.

(** C6 as stated fails: a message without a subject header whose date
    is in a year [datetime] cannot hold is skipped; no record with the
    placeholder is returned. *)
Lemma no_subject_can_be_skipped :
  get no_subject_bad_date (lit "subject") = None
  /\ process_email runtime clock no_subject_bad_date
     = ([Log ERROR (ErrorProcessingMessage
                      (Exn ValueError (lit "year is out of range")))],
        None)
  /\ ~ (forall rt now m,
          get m (lit "subject") = None ->
          exists email_data,
            (process_email rt now m).2 = Some email_data
            /\ subject email_data = lit "[No subject]").
Proof.
  split; [reflexivity|]. split; [vm_compute; reflexivity|].
  intros H.
  destruct (H runtime clock no_subject_bad_date eq_refl) as (d & Hd & _).
  vm_compute in Hd. discriminate.
Qed.

Lemma non_ok_status_is_skipped_witness :
  (process_unread_emails search_refused runtime empty).2 = Ok tt
  /\ db (process_unread_emails second_refused runtime empty).1
     = fold_left upsert
         (saved second_refused runtime (Session 0) (split (lit "1 2 3"))) []
  /\ (forall id, In id (split (lit "1 2 3")) ->
        In (Fetch (Session 0) id)
           (trace (process_unread_emails second_refused runtime empty).1)).
Proof.
  split.
  - pose proof (non_ok_status_is_skipped search_refused runtime empty (Session 0)
                  [Connect 0; Log INFO ConnectedToEmailServer]
                  eq_refl eq_refl) as [Hsearch _].
    assert (lit "NO" <> lit "OK") as Hno by (vm_compute; discriminate).
    exact (proj1 (Hsearch (lit "NO") [Some (lit "1 2 3")] eq_refl Hno)).
  - pose proof (non_ok_status_is_skipped second_refused runtime empty (Session 0)
                  [Connect 0; Log INFO ConnectedToEmailServer]
                  eq_refl eq_refl) as (_ & _ & Hfetch).
    assert (Forall (fun id => refused second_refused (Session 0) id
                              \/ persists second_refused runtime (Session 0) id)
              (split (lit "1 2 3"))) as Hall.
    { replace (split (lit "1 2 3")) with [lit "1"; lit "2"; lit "3"]
        by (vm_compute; reflexivity).
      apply Forall_cons_2; [|apply Forall_cons_2; [|apply Forall_cons_2; [|apply Forall_nil_2]]].
      - right. split; [vm_compute; eauto|reflexivity].
      - left. exists (lit "NO"), [None]. split; [reflexivity|vm_compute; discriminate].
      - right. split; [vm_compute; eauto|reflexivity]. }
    destruct (Hfetch (lit "1 2 3") [] eq_refl Hall) as (_ & _ & Hdb & Hids).
    split; [exact Hdb|].
    intros id Hin. exact (proj1 (Hids id Hin)).
Defined.

(** C7 as stated fails: the search is answered NO and the connection is
    lost before the logout; the sweep ends with the exception of the
    logout. *)
Lemma refused_search_can_raise :
  (connect_to_email_server search_refused_logout_fails).2 = Ok (Some (Session 0))
  /\ search search_refused_logout_fails (Session 0)
     = Ok (lit "NO", [Some (lit "1 2 3")])
  /\ (process_unread_emails search_refused_logout_fails runtime empty).2
     = Raise connection_lost
  /\ ~ (forall env rt st s status messages,
          (connect_to_email_server env).2 = Ok (Some s) ->
          select env s = Ok tt ->
          search env s = Ok (status, messages) ->
          status <> lit "OK" ->
          (process_unread_emails env rt st).2 = Ok tt).
Proof.
  split; [reflexivity|]. split; [reflexivity|].
  split; [vm_compute; reflexivity|].
  intros H.
  assert (lit "NO" <> lit "OK") as Hno by (vm_compute; discriminate).
  pose proof (H search_refused_logout_fails runtime empty (Session 0)
                (lit "NO") [Some (lit "1 2 3")] eq_refl eq_refl eq_refl Hno) as Hr.
  vm_compute in Hr. discriminate.
Qed.



Lemma empty_subject_stays_empty_witness :
  extract_subject runtime empty_subject = Ok []
  /\ exists email_data,
       process_email runtime clock empty_subject = ([], Some email_data)
       /\ subject email_data = []
       /\ subject email_data <> no_subject.
Proof.
  assert (extract_sender runtime empty_subject = Ok (lit "ann@example.org"))
    as Hsnd by (vm_compute; reflexivity).
  assert (extract_timestamp runtime clock empty_subject
          = Ok (Datetime 1704067200000000)) as Hts by (vm_compute; reflexivity).
  pose proof (empty_subject_stays_empty runtime clock empty_subject eq_refl)
    as (Hsubj & Hrecord & _).
  split; [exact Hsubj|].
  exact (Hrecord (lit "ann@example.org") (Datetime 1704067200000000)
           (Float 1704067200000000) Hsnd Hts eq_refl).
Defined.

(** C9 as stated fails: a message with an empty subject header whose
    date is in a year [datetime] cannot hold is skipped; no record is
    returned. *)
Lemma empty_subject_can_be_skipped :
  get empty_subject_bad_date (lit "subject") = Some []
  /\ process_email runtime clock empty_subject_bad_date
     = ([Log ERROR (ErrorProcessingMessage
                      (Exn ValueError (lit "year is out of range")))],
        None)
  /\ ~ (forall rt now m,
          get m (lit "subject") = Some [] ->
          exists email_data,
            (process_email rt now m).2 = Some email_data
            /\ subject email_data = []).
Proof.
  split; [reflexivity|]. split; [vm_compute; reflexivity|].
  intros H.
  destruct (H runtime clock empty_subject_bad_date eq_refl) as (d & Hd & _).
  vm_compute in Hd. discriminate.
Qed.

(** Messages whose extraction raises are skipped through the catch-all:
    a subject in a charset the codec registry does not know, a date in
    a year [datetime] cannot hold. *)
Lemma skipped_by_the_catch_all :
  process_email runtime clock unknown_charset_subject
  = ([Log ERROR (ErrorProcessingMessage
                   (Exn LookupError (lit "unknown encoding: x-unknown")))],
     None)
  /\ process_email runtime clock out_of_range_date
     = ([Log ERROR (ErrorProcessingMessage
                      (Exn ValueError (lit "year is out of range")))],
        None).
Proof. split; vm_compute; reflexivity. Qed.

Lemma runtime_no_KeyError : no_KeyError runtime.
Proof.
  unfold no_KeyError, runtime. cbn [decode_header str_decode mktime_tz
    fromtimestamp timestamp_of]. repeat split.
  - intros h. unfold lib_decode_header. by repeat case_bool_decide.
  - intros b cs. unfold lib_str_decode. repeat case_bool_decide; try done.
    + destruct (utf8_decode strict b) as [s|e] eqn:Hdec; [done|].
      apply utf8_decode_raise in Hdec. destruct e as [c t]. simpl in *. by subst c.
    + by destruct (forallb _ b).
  - intros d. unfold lib_mktime_tz. by destruct (_ && _).
Qed.

(** The skipped message of C5 is skipped through the catch-all. *)
Lemma KeyError_branch_is_unreachable_witness :
  no_KeyError runtime
  /\ (forall e, ~ In (Log WARNING (MalformedEmail e))
                   (process_email runtime clock undecodable_subject).1)
  /\ exists e, (process_email runtime clock undecodable_subject).1
               = [Log ERROR (ErrorProcessingMessage e)].
Proof.
  split; [exact runtime_no_KeyError|].
  destruct (KeyError_branch_is_unreachable runtime clock undecodable_subject
              runtime_no_KeyError) as (_ & Hwarn & Hskip & _).
  split; [exact Hwarn|].
  destruct (Hskip ltac:(vm_compute; reflexivity)) as (e & _ & He). eauto.
Defined.

End Witnesses.

(** ** More on the collection *)

Lemma find_unique id c : unique_index c -> (length (find id c) <= 1)%nat.
Proof.
  unfold unique_index, find. induction c as [|doc c IH]; simpl; [lia|].
  intros Hnd. apply NoDup_cons in Hnd as [Hnotin Hnd].
  destruct (matches id doc) eqn:Hm; [|by apply IH].
  apply matches_key in Hm. rewrite Hm in Hnotin.
  assert (List.filter (matches id) c = []) as ->; [|simpl; lia].
  apply find_nil_iff. by rewrite <- list_elem_of_In.
Qed.

Lemma email_dict_key d now :
  email_dict d now !! "message_id" = Some (VStr (message_id d)).
Proof. apply email_dict_lookup. Qed.

Lemma length_update_one id fields c :
  (length c <= length (update_one id fields c))%nat.
Proof.
  unfold update_one. destruct (set_first id fields c) as [c'|] eqn:Hs.
  - by rewrite (length_set_first id fields c c' Hs).
  - rewrite length_app. simpl. lia.
Qed.

(** What a sequence of upserts keeps. *)
Lemma upserts_keep ws c :
  let c' := fold_left upsert ws c in
  (unique_index c -> unique_index c')
  /\ (forall id, stored id c -> stored id c')
  /\ (length c <= length c')%nat.
Proof.
  revert c. induction ws as [|[d now] ws IH]; intros c; simpl; [done|].
  destruct (IH (upsert c (d, now))) as (Hu & Hs & Hl).
  unfold upsert in *. simpl in *. split; [|split].
  - intros Huc. apply Hu.
    by apply (update_one_upsert _ _ c (email_dict_key d now)).
  - intros id Hid. apply Hs. apply stored_iff, update_one_keys;
      [apply email_dict_key|]. left. by apply stored_iff.
  - pose proof (length_update_one (message_id d) (email_dict d now) c). lia.
Qed.

Lemma save_to_database_upsert_or_nothing now reply d st :
  db (save_to_database now reply d st).1
  = match reply with
    | None => upsert (db st) (d, now)
    | Some _ => db st
    end.
Proof.
  unfold save_to_database. destruct reply as [e|]; [|done].
  by destruct (isinstance e PyMongoError).
Qed.

(** The loop writes by upserts only: the collection it leaves is the
    one it found with a sequence of upserts applied, each of the record
    one of the ids normalises to, at the clock reading for that id. *)
Lemma process_ids_upserts env rt mail ids st :
  exists ws,
    db (process_ids env rt mail ids st).1 = fold_left upsert ws (db st)
    /\ (length ws <= length ids)%nat
    /\ Forall (fun w => exists id, In id ids
                 /\ normalized env rt mail id = Some w.1
                 /\ update_reply env id = None
                 /\ w.2 = datetime_now env id) ws.
Proof.
  revert st. induction ids as [|email_id ids IH]; intros st.
  { exists []. simpl. split; [done|]. split; [lia|constructor]. }
  assert (Hskip : forall st', db st' = db st ->
    exists ws, db (process_ids env rt mail ids st').1 = fold_left upsert ws (db st)
      /\ (length ws <= length (email_id :: ids))%nat
      /\ Forall (fun w => exists id, In id (email_id :: ids)
                   /\ normalized env rt mail id = Some w.1
                   /\ update_reply env id = None
                   /\ w.2 = datetime_now env id) ws).
  { intros st' Hdb. destruct (IH st') as (ws & Hws & Hlen & Hall).
    exists ws. rewrite Hws, Hdb. split; [done|]. split; [simpl; lia|].
    eapply Forall_impl; [exact Hall|]. intros w (id & Hin & H). exists id.
    split; [by right|done]. }
  assert (Hstop : forall st' (r : result unit), db st' = db st ->
    exists ws, db (st', r).1 = fold_left upsert ws (db st)
      /\ (length ws <= length (email_id :: ids))%nat
      /\ Forall (fun w => exists id, In id (email_id :: ids)
                   /\ normalized env rt mail id = Some w.1
                   /\ update_reply env id = None
                   /\ w.2 = datetime_now env id) ws).
  { intros st' r Hdb. exists []. simpl. split; [done|]. split; [lia|constructor]. }
  simpl. unfold normalized in *.
  destruct (fetch env mail email_id) as [[res msg]|e] eqn:Hf; [|by apply Hstop].
  destruct (bool_decide (res = lit "OK")) eqn:Hres; simpl; [|by apply Hskip].
  destruct (raw_message msg) as [raw|e] eqn:Hraw; [|by apply Hstop].
  destruct (process_email rt (time_time env email_id) (message_from_bytes rt raw))
    as [evs [d|]] eqn:Hpe; [|by apply Hskip].
  pose proof (save_to_database_upsert_or_nothing (datetime_now env email_id)
    (update_reply env email_id) d (emit evs (emit [Fetch mail email_id] st))) as Hsave.
  destruct (update_reply env email_id) as [e|] eqn:Hrep.
  - destruct (save_to_database _ _ d _) as [st' [[]|e']]; simpl in Hsave;
      [by apply Hskip|by apply Hstop].
  - destruct (save_to_database _ _ d _) as [st' r] eqn:Hs. simpl in Hsave.
    assert (Hhere : exists id, In id (email_id :: ids)
              /\ match fetch env mail id with
                 | Ok (res, msg) =>
                     if bool_decide (res = lit "OK") then
                       match raw_message msg with
                       | Ok raw => (process_email rt (time_time env id)
                                      (message_from_bytes rt raw)).2
                       | Raise _ => None
                       end
                     else None
                 | Raise _ => None
                 end = Some d
              /\ update_reply env id = None
              /\ datetime_now env email_id = datetime_now env id).
    { exists email_id. split; [by left|]. rewrite Hf, Hres, Hraw, Hpe. done. }
    destruct r as [[]|e'].
    + destruct (IH (emit [Log INFO (ProcessedEmail (subject d))] st'))
        as (ws & Hws & Hlen & Hall).
      exists ((d, datetime_now env email_id) :: ws). simpl.
      rewrite Hws. simpl. rewrite Hsave. split; [done|]. split; [lia|].
      constructor; [exact Hhere|].
      eapply Forall_impl; [exact Hall|]. intros w (id & Hin & H). exists id.
      split; [by right|done].
    + exists [(d, datetime_now env email_id)]. simpl. rewrite Hsave.
      split; [done|]. split; [lia|]. constructor; [exact Hhere|constructor].
Qed.

Lemma sweep_db env rt mail st :
  db (sweep env rt mail st).1 = db st
  \/ exists s ids more,
       mail = Some s
       /\ search env s = Ok (lit "OK", Some ids :: more)
       /\ (sweep env rt mail st).1
          = (process_ids env rt s (split ids)
               (emit [Search s] (emit [Select s] st))).1.
Proof.
  unfold sweep. destruct mail as [s|]; [|by left].
  destruct (select env s) as [[]|e]; [|by left].
  destruct (search env s) as [[status messages]|e] eqn:Hsearch; [|by left].
  destruct (bool_decide (status = lit "OK")) eqn:Hst; simpl; [|by left].
  apply bool_decide_eq_true in Hst. subst status.
  destruct messages as [|[ids|] more]; simpl; try by left.
  destruct (split ids) as [|email_id email_ids] eqn:Hids; [by left|].
  right. exists s, ids, more. by rewrite Hids.
Qed.


Lemma process_unread_emails_db env rt st :
  db (process_unread_emails env rt st).1 = db st
  \/ exists s st0,
       (connect_to_email_server env).2 = Ok (Some s)
       /\ db st0 = db st
       /\ db (process_unread_emails env rt st).1
          = db (process_ids env rt s (listed env s) st0).1.
Proof.
  unfold process_unread_emails.
  destruct (connect_to_email_server env) as [cevs [mail|e]]; [|by left].
  destruct (sweep_db env rt mail (emit cevs st)) as [Hsame|(s & ids & more & -> & Hsearch & Hsw)].
  - left. destruct (sweep env rt mail (emit cevs st)) as [st1 r1]. simpl in Hsame.
    destruct mail as [s|]; destruct r1 as [[]|e]; simpl; by rewrite ?Hsame.
  - right. exists s, (emit [Search s] (emit [Select s] (emit cevs st))).
    split; [done|]. split; [done|].
    unfold listed. rewrite Hsearch.
    destruct (sweep env rt (Some s) (emit cevs st)) as [st1 r1]. simpl in Hsw.
    subst st1. by destruct r1 as [[]|e].
Qed.

(** The writes of a sweep. *)
Lemma process_unread_emails_upserts (env : Env) (rt : Runtime) (st : state) :
  exists ws,
    db (process_unread_emails env rt st).1 = fold_left upsert ws (db st)
    /\ Forall (fun w => exists s id,
                 (connect_to_email_server env).2 = Ok (Some s)
                 /\ In id (listed env s)
                 /\ normalized env rt s id = Some w.1
                 /\ update_reply env id = None
                 /\ w.2 = datetime_now env id) ws
    /\ (forall s, (connect_to_email_server env).2 = Ok (Some s) ->
          (length ws <= length (listed env s))%nat)
    /\ (forall e, (connect_to_email_server env).2 = Raise e -> ws = []).
Proof.
  destruct (process_unread_emails_db env rt st) as [Hsame|(s & st0 & Hc & Hdb & Hsw)].
  - exists []. simpl. split; [done|]. split; [constructor|]. split; [intros; lia|done].
  - destruct (process_ids_upserts env rt s (listed env s) st0)
      as (ws & Hws & Hlen & Hall).
    exists ws. rewrite Hsw, Hws, Hdb. split; [done|]. split.
    + eapply Forall_impl; [exact Hall|]. intros w (id & Hin & H). by exists s, id.
    + split; [|intros e He; congruence].
      intros s' Hs'. assert (s' = s) as -> by congruence. done.
Qed.

(** X1.  A sweep writes by upserts only: the collection it leaves is the
    collection it found with a sequence of upserts applied; each is the
    upsert of the record that one of the listed ids normalises to, whose
    update the server acknowledged, at the clock reading for that id;
    there are at most as many as ids listed. *)
Theorem sweep_writes_by_upserts (env : Env) (rt : Runtime) (st : state) :
  exists ws,
    db (process_unread_emails env rt st).1 = fold_left upsert ws (db st)
    /\ Forall (fun w => exists s id,
                 (connect_to_email_server env).2 = Ok (Some s)
                 /\ In id (listed env s)
                 /\ normalized env rt s id = Some w.1
                 /\ update_reply env id = None
                 /\ w.2 = datetime_now env id) ws
    /\ (forall s, (connect_to_email_server env).2 = Ok (Some s) ->
          (length ws <= length (listed env s))%nat)
    /\ (forall e, (connect_to_email_server env).2 = Raise e -> ws = []).
Proof. exact (process_unread_emails_upserts env rt st). Qed.

(** X2.  A sweep keeps the unique index: started on a collection in
    which no two documents have the same [message_id], it leaves such a
    collection, so a [find] by [message_id] returns at most one
    document, however often a message was listed. *)
Theorem sweep_keeps_unique_index (env : Env) (rt : Runtime) (st : state) :
  unique_index (db st) ->
  unique_index (db (process_unread_emails env rt st).1)
  /\ forall id, (length (find id (db (process_unread_emails env rt st).1)) <= 1)%nat.
Proof.
  intros Hu.
  destruct (process_unread_emails_upserts env rt st) as (ws & -> & _).
  assert (unique_index (fold_left upsert ws (db st))) as Hu'
    by by apply upserts_keep.
  split; [done|]. intros id. by apply find_unique.
Qed.


(** X3.  A sweep deletes nothing: a [message_id] that has a document
    before the sweep has one after it, and the collection does not
    shrink. *)
Theorem sweep_deletes_nothing (env : Env) (rt : Runtime) (st : state) :
  (forall id, stored id (db st) ->
     stored id (db (process_unread_emails env rt st).1))
  /\ (length (db st) <= length (db (process_unread_emails env rt st).1))%nat.
Proof.
  destruct (process_unread_emails_upserts env rt st) as (ws & -> & _).
  destruct (upserts_keep ws (db st)) as (_ & Hs & Hl). done.
Qed.

(** ** More on save_to_database *)

Lemma set_first_others id fields c c' :
  fields !! "message_id" = Some (VStr id) ->
  set_first id fields c = Some c' ->
  List.filter (fun doc => negb (matches id doc)) c'
  = List.filter (fun doc => negb (matches id doc)) c.
Proof.
  intros Hf. revert c'. induction c as [|doc c IH]; intros c'; simpl; [done|].
  destruct (matches id doc) eqn:Hm.
  - intros [= <-]. simpl.
    assert (matches id (fields ∪ doc) = true) as ->; [|done].
    apply matches_key. unfold key_of. by apply lookup_union_Some_l.
  - destruct (set_first id fields c) as [r|]; [|done].
    intros [= <-]. simpl. rewrite Hm. simpl. f_equal. by apply IH.
Qed.

Lemma update_one_others id fields c :
  fields !! "message_id" = Some (VStr id) ->
  List.filter (fun doc => negb (matches id doc)) (update_one id fields c)
  = List.filter (fun doc => negb (matches id doc)) c.
Proof.
  intros Hf. unfold update_one.
  destruct (set_first id fields c) as [c'|] eqn:Hs.
  - by apply (set_first_others id fields).
  - rewrite List.filter_app. simpl.
    assert (matches id (fields ∪ {["message_id" := VStr id]}) = true) as ->.
    { apply matches_key. unfold key_of. by apply lookup_union_Some_l. }
    simpl. by rewrite app_nil_r.
Qed.

Lemma find_through_others id id' c :
  id' <> id ->
  find id' c = find id' (List.filter (fun doc => negb (matches id doc)) c).
Proof.
  intros Hne. unfold find. induction c as [|doc c IH]; simpl; [done|].
  destruct (matches id doc) eqn:Hm; simpl.
  - assert (matches id' doc = false) as ->; [|done].
    apply matches_key in Hm. unfold matches. apply bool_decide_eq_false.
    rewrite Hm. intros [= ->]. done.
  - destruct (matches id' doc); simpl; by rewrite IH.
Qed.

(** X4.  A save touches the documents of its own [message_id] only:
    whatever the server answers, the documents with another key are the
    same documents in the same order afterwards, so a [find] by another
    [message_id] returns what it returned before. *)
Theorem save_to_database_leaves_others
    (now : datetime) (reply : option exn) (d : MailRecord) (st : state) :
  let st' := (save_to_database now reply d st).1 in
  List.filter (fun doc => negb (matches (message_id d) doc)) (db st')
  = List.filter (fun doc => negb (matches (message_id d) doc)) (db st)
  /\ forall id, id <> message_id d -> find id (db st') = find id (db st).
Proof.
  cbv zeta. rewrite save_to_database_upsert_or_nothing.
  assert (List.filter (fun doc => negb (matches (message_id d) doc))
            match reply with
            | Some _ => db st
            | None => upsert (db st) (d, now)
            end
          = List.filter (fun doc => negb (matches (message_id d) doc)) (db st))
    as Hothers.
  { destruct reply; [done|]. apply update_one_others, email_dict_key. }
  split; [done|]. intros id Hne.
  rewrite (find_through_others (message_id d) id _ Hne), Hothers.
  symmetry. by apply find_through_others.
Qed.

Lemma union_absorb (f1 f2 doc : gmap string value) :
  (forall k, is_Some (f1 !! k) -> is_Some (f2 !! k)) ->
  f2 ∪ (f1 ∪ doc) = f2 ∪ doc.
Proof.
  intros Hdom. apply map_eq. intros k.
  destruct (f2 !! k) as [v|] eqn:H2.
  - by rewrite !(lookup_union_Some_l _ _ _ _ H2).
  - rewrite !(lookup_union_r _ _ _ H2).
    destruct (f1 !! k) as [v|] eqn:H1.
    + destruct (Hdom k) as [v' Hv']; [eauto|congruence].
    + by rewrite (lookup_union_r _ _ _ H1).
Qed.

Lemma set_first_again id f1 f2 c c' :
  f1 !! "message_id" = Some (VStr id) ->
  (forall k, is_Some (f1 !! k) -> is_Some (f2 !! k)) ->
  set_first id f1 c = Some c' ->
  set_first id f2 c' = set_first id f2 c.
Proof.
  intros Hf Hdom. revert c'. induction c as [|doc c IH]; intros c'; simpl; [done|].
  destruct (matches id doc) eqn:Hm.
  - intros [= <-]. simpl.
    assert (matches id (f1 ∪ doc) = true) as ->.
    { apply matches_key. unfold key_of. by apply lookup_union_Some_l. }
    by rewrite union_absorb.
  - destruct (set_first id f1 c) as [r|]; [|done].
    intros [= <-]. simpl. rewrite Hm. by rewrite (IH r).
Qed.

Lemma set_first_app_fresh id fields c doc :
  set_first id fields c = None -> matches id doc = true ->
  set_first id fields (c ++ [doc]) = Some (c ++ [fields ∪ doc]).
Proof.
  intros Hnone Hm. induction c as [|d c IH]; simpl in *; [by rewrite Hm|].
  destruct (matches id d); [done|].
  destruct (set_first id fields c); [done|]. by rewrite IH.
Qed.

Lemma update_one_twice id f1 f2 c :
  f1 !! "message_id" = Some (VStr id) ->
  (forall k, is_Some (f1 !! k) -> is_Some (f2 !! k)) ->
  update_one id f2 (update_one id f1 c) = update_one id f2 c.
Proof.
  intros Hf Hdom. unfold update_one at 2.
  destruct (set_first id f1 c) as [c'|] eqn:Hs.
  - unfold update_one. rewrite (set_first_again id f1 f2 c c' Hf Hdom Hs).
    destruct (set_first id f2 c) eqn:Hs2; [done|].
    apply (set_first_none id f2), (set_first_none id f1) in Hs2. congruence.
  - assert (set_first id f2 c = None) as Hnone
      by by apply (set_first_none id f2), (set_first_none id f1).
    assert (matches id (f1 ∪ {["message_id" := VStr id]}) = true) as Hm.
    { apply matches_key. unfold key_of. by apply lookup_union_Some_l. }
    unfold update_one.
    rewrite (set_first_app_fresh id f2 c _ Hnone Hm), Hnone.
    by rewrite union_absorb.
Qed.


Lemma email_dict_fields d1 now1 d2 now2 k :
  is_Some (email_dict d1 now1 !! k) -> is_Some (email_dict d2 now2 !! k).
Proof.
  unfold email_dict. rewrite !lookup_insert, !lookup_empty.
  repeat case_decide; eauto.
Qed.

(** X5.  The last save wins entirely: after two acknowledged saves of
    records with the same [message_id] the collection is what the second
    save alone would have left; in particular saving the same record
    again at the same clock reading changes nothing. *)
Theorem save_to_database_last_wins
    (t1 t2 : datetime) (r1 r2 : MailRecord) (st : state) :
  message_id r1 = message_id r2 ->
  db (save_to_database t2 None r2 (save_to_database t1 None r1 st).1).1
  = db (save_to_database t2 None r2 st).1
  /\ (r1 = r2 -> t1 = t2 ->
      db (save_to_database t2 None r2 (save_to_database t1 None r1 st).1).1
      = db (save_to_database t1 None r1 st).1).
Proof.
  intros Hid. simpl.
  assert (update_one (message_id r2) (email_dict r2 t2)
            (update_one (message_id r1) (email_dict r1 t1) (db st))
          = update_one (message_id r2) (email_dict r2 t2) (db st)) as Hlast.
  { rewrite Hid. apply update_one_twice.
    - rewrite <- Hid. apply email_dict_key.
    - intros k. apply email_dict_fields. }
  split; [done|]. intros -> ->. exact Hlast.
Qed.

(** X6.  The first save of a [message_id]: when the collection holds no
    document for it, an acknowledged save appends exactly one document,
    made of the record's four fields and [processed_at], and leaves the
    documents before it as they are. *)
Theorem save_to_database_inserts
    (now : datetime) (d : MailRecord) (st : state) :
  ~ stored (message_id d) (db st) ->
  db (save_to_database now None d st).1 = db st ++ [email_dict d now]
  /\ dom (email_dict d now)
     = ({["message_id"; "sender"; "subject"; "timestamp"; "processed_at"]}
        : gset string).
Proof.
  intros Hnew. split.
  - simpl. unfold update_one.
    assert (set_first (message_id d) (email_dict d now) (db st) = None) as ->.
    { apply set_first_none. unfold stored in Hnew.
      destruct (find (message_id d) (db st)); [done|]. by destruct Hnew. }
    by f_equal.
  - unfold email_dict. rewrite !dom_insert_L, dom_empty_L. set_solver.
Qed.

(** ** More on process_email *)

Lemma bind_ok {A B} (r : result A) (k : A -> result B) b :
  (r ≫= k) = Ok b -> exists a, r = Ok a /\ k a = Ok b.
Proof. destruct r as [a|e]; simpl; [eauto|done]. Qed.

Lemma join_segments_ok rt segs s :
  join_segments rt segs = Ok s ->
  exists texts,
    Forall2 (fun t s => decode_segment rt t = Ok s) segs texts /\ s = concat texts.
Proof.
  revert s. induction segs as [|t segs IH]; simpl; intros s H.
  - injection H as <-. exists []. split; [constructor|done].
  - apply bind_ok in H as (s1 & H1 & H). apply bind_ok in H as (s2 & H2 & H).
    injection H as <-. destruct (IH s2 H2) as (texts & Hall & ->).
    exists (s1 :: texts). split; [by constructor|done].
Qed.

(** X7.  What a returned record holds.  When [process_email] returns a
    record it has written no log line, and the record is made of the
    library's answers unchanged: the sender is the address [parseaddr]
    gave for the From header (for the empty string when there is none);
    the subject is the empty header itself or the concatenation of the
    decoded segments of the header (of the placeholder when there is
    none); the timestamp is the parsed date put through [mktime_tz] and
    [fromtimestamp], or the clock reading when the date does not parse;
    the message_id is the Message-ID header verbatim, or "NO_ID_" and
    the rendering of the timestamp.  The re-encoding with
    [errors='replace'] has altered nothing. *)
Theorem process_email_record
    (rt : Runtime) (now : pyfloat) (m : Message)
    (evs : list event) (d : MailRecord) :
  process_email rt now m = (evs, Some d) ->
  evs = []
  /\ sender d = (parseaddr rt (default [] (get m (lit "from")))).2
  /\ ((get m (lit "subject") = Some [] /\ subject d = [])
      \/ exists segs texts,
           truthy (default no_subject (get m (lit "subject"))) = true
           /\ decode_header rt (default no_subject (get m (lit "subject"))) = Ok segs
           /\ Forall2 (fun t s => decode_segment rt t = Ok s) segs texts
           /\ subject d = concat texts)
  /\ match parsedate_tz rt (get m (lit "date")) with
     | Some date_tuple =>
         exists secs, mktime_tz rt date_tuple = Ok secs
                      /\ fromtimestamp rt secs = Ok (timestamp d)
     | None => fromtimestamp rt now = Ok (timestamp d)
     end
  /\ exists secs,
       timestamp_of rt (timestamp d) = Ok secs
       /\ message_id d
          = default (lit "NO_ID_" ++ float_str rt secs) (get m (lit "message-id")).
Proof.
  intros H. apply process_email_some in H as [-> H]. split; [done|].
  unfold process_email_body in H.
  apply bind_ok in H as (subj & Hsubj & H).
  apply bind_ok in H as (snd & Hsnd & H).
  apply bind_ok in H as (ts & Hts & H).
  apply bind_ok in H as (secs & Hsecs & H).
  injection H as <-. simpl.
  split.
  { unfold extract_sender in Hsnd. by apply reencode_id in Hsnd. }
  split.
  { unfold extract_subject in Hsubj.
    destruct (get m (lit "subject")) as [h|] eqn:Hget; simpl in Hsubj.
    - destruct h as [|c h]; simpl in Hsubj.
      + injection Hsubj as <-. by left.
      + right. apply bind_ok in Hsubj as (segs & Hdec & Hsubj).
        apply bind_ok in Hsubj as (joined & Hjoin & Hre).
        apply reencode_id in Hre. subst subj.
        destruct (join_segments_ok rt segs joined Hjoin) as (texts & Hall & ->).
        exists segs, texts. done.
    - right. apply bind_ok in Hsubj as (segs & Hdec & Hsubj).
      apply bind_ok in Hsubj as (joined & Hjoin & Hre).
      apply reencode_id in Hre. subst subj.
      destruct (join_segments_ok rt segs joined Hjoin) as (texts & Hall & ->).
      exists segs, texts. done. }
  split.
  { unfold extract_timestamp in Hts.
    destruct (parsedate_tz rt (get m (lit "date"))) as [dt|]; simpl in Hts.
    - apply bind_ok in Hts as (t & Ht & Hts). eauto.
    - done. }
  eauto.
Qed.

(** X8.  When the date header parses, the clock is not consulted:
    [process_email] gives the same result whatever [time.time()] would
    answer. *)
Theorem process_email_ignores_clock
    (rt : Runtime) (now now' : pyfloat) (m : Message) (date_tuple : date_tuple) :
  parsedate_tz rt (get m (lit "date")) = Some date_tuple ->
  process_email rt now m = process_email rt now' m.
Proof.
  intros Hdate. unfold process_email, process_email_body, extract_timestamp.
  by rewrite Hdate.
Qed.

(** ** More on the sweep *)

Lemma split_from_spaces b :
  Forall (fun x => is_space x = true) b -> split_from [] b = [].
Proof. induction 1 as [|x b Hx _ IH]; simpl; [done|]. by rewrite Hx. Qed.

Lemma process_unread_emails_connected env rt st s cevs :
  connect_to_email_server env = (cevs, Ok (Some s)) ->
  process_unread_emails env rt st
  = let '(st1, r1) := sweep env rt (Some s) (emit cevs st) in
    (emit (match r1 with Ok _ => [] | Raise e => [handler e] end ++ [Logout s]) st1,
     logout env s).
Proof.
  intros Hc. unfold process_unread_emails. rewrite Hc.
  destruct (sweep env rt (Some s) (emit cevs st)) as [st1 [[]|e]]; [done|].
  by rewrite emit_emit.
Qed.

(** X9.  Nothing unread: when the search is answered OK with an empty
    list of ids (no octets, or white space only), the sweep writes one
    info line, fetches nothing, leaves the collection as it is, logs out
    and ends as the logout ends. *)
Theorem no_unread_emails
    (env : Env) (rt : Runtime) (st : state) (s : session) (cevs : list event)
    (ids : list N) (more : list (option (list N))) :
  connect_to_email_server env = (cevs, Ok (Some s)) ->
  select env s = Ok tt ->
  search env s = Ok (lit "OK", Some ids :: more) ->
  Forall (fun x => is_space x = true) ids ->
  process_unread_emails env rt st
  = (emit (cevs ++ [Select s; Search s; Log INFO NoUnreadEmails; Logout s]) st,
     logout env s)
  /\ db (process_unread_emails env rt st).1 = db st.
Proof.
  intros Hc Hsel Hsearch Hsp.
  assert (process_unread_emails env rt st
          = (emit (cevs ++ [Select s; Search s; Log INFO NoUnreadEmails; Logout s]) st,
             logout env s)) as Heq.
  { rewrite (process_unread_emails_connected env rt st s cevs Hc).
    unfold sweep. rewrite Hsel, Hsearch. rewrite bool_decide_eq_true_2 by done.
    simpl. unfold split. rewrite (split_from_spaces ids Hsp).
    by rewrite !emit_emit, <- ?app_assoc. }
  split; [done|]. by rewrite Heq.
Qed.

(** X10.  The server cannot be reached: when the three attempts fail,
    [process_unread_emails] logs the terminal [ConnectionError] through
    its first handler, as a connectivity issue, calls nothing on a
    session (no select, search, fetch or logout), leaves the collection
    as it is and returns. *)
Theorem unreachable_server_ends_sweep (env : Env) (rt : Runtime) (st : state) :
  all_fail env 3 ->
  let e := Exn ConnectionError
             (lit "Failed to connect to email server after max retries") in
  process_unread_emails env rt st
  = (emit ((connect_to_email_server env).1 ++ [Log ERROR (ConnectivityIssue e)]) st,
     Ok tt)
  /\ db (process_unread_emails env rt st).1 = db st
  /\ (forall ev, In ev (trace (process_unread_emails env rt st).1) ->
        In ev (trace st)
        \/ match ev with
           | Select _ | Search _ | Fetch _ _ | Logout _ => False
           | _ => True
           end).
Proof.
  intros Hfail e.
  destruct (connect_gives_up env Hfail) as [Hr _]. fold e in Hr.
  assert (process_unread_emails env rt st
          = (emit ((connect_to_email_server env).1
                   ++ [Log ERROR (ConnectivityIssue e)]) st, Ok tt)) as Heq.
  { unfold process_unread_emails.
    destruct (connect_to_email_server env) as [cevs r]. simpl in Hr. subst r.
    by rewrite emit_emit. }
  split; [done|]. rewrite Heq. split; [done|].
  simpl. intros ev Hin. apply in_app_or in Hin as [Hin|Hin]; [by left|right].
  apply in_app_or in Hin as [Hin|[<-|[]]]; [|done].
  clear -Hin. unfold connect_to_email_server in Hin. simpl in Hin.
  destruct (connect env 0); simpl in Hin.
  { repeat (destruct Hin as [<-|Hin]; [done|]). done. }
  destruct (connect env 1); simpl in Hin.
  { repeat (destruct Hin as [<-|Hin]; [done|]). done. }
  destruct (connect env 2); simpl in Hin;
    repeat (destruct Hin as [<-|Hin]; [done|]); done.
Qed.

Lemma iteration_raise env rt mail email_id st1 st2 e :
  process_ids env rt mail [email_id] st1 = (st2, Raise e) ->
  db st2 = db st1
  /\ exists logs, trace st2 = trace st1 ++ Fetch mail email_id :: logs
       /\ forall ev, In ev logs -> exists l m, ev = Log l m.
Proof.
  simpl.
  destruct (fetch env mail email_id) as [[res msg]|e0].
  2:{ intros [= <- <-]. split; [done|]. exists []. split; [done|]. intros ev []. }
  destruct (negb (bool_decide (res = lit "OK"))); [done|].
  destruct (raw_message msg) as [raw|e0].
  2:{ intros [= <- <-]. split; [done|]. exists []. split; [done|]. intros ev []. }
  pose proof (process_email_logs rt (time_time env email_id)
                (message_from_bytes rt raw)) as Hpe.
  destruct (process_email rt (time_time env email_id) (message_from_bytes rt raw))
    as [evs [d|]]; [|done]. simpl in Hpe.
  unfold save_to_database. destruct (update_reply env email_id) as [e0|]; [|done].
  destruct (isinstance e0 PyMongoError); intros [= <- <-]; (split; [done|]).
  - exists (evs ++ [Log ERROR (ErrorSaving e0)]). simpl.
    rewrite <- !app_assoc. split; [done|].
    intros ev Hin. apply in_app_or in Hin as [Hin|[<-|[]]]; eauto.
  - exists evs. simpl. rewrite <- !app_assoc. split; [done|]. auto.
Qed.

(** X11.  Any exception inside the loop ends the sweep.  When the
    iteration for one id raises (the fetch itself, the access to the
    fetched data, or the save, with whatever exception), that iteration
    has written nothing to the collection; the handler at the end of
    [process_unread_emails] logs the exception once, no id after it is
    fetched, the session is logged out and the method ends as the
    logout ends. *)
Theorem exception_in_loop_ends_sweep
    (env : Env) (rt : Runtime) (st st1 st2 : state) (s : session)
    (cevs : list event) (ids : list N) (more : list (option (list N)))
    (pre post : list (list N)) (email_id : list N) (e : exn) :
  connect_to_email_server env = (cevs, Ok (Some s)) ->
  select env s = Ok tt ->
  search env s = Ok (lit "OK", Some ids :: more) ->
  split ids = pre ++ email_id :: post ->
  process_ids env rt s pre (emit (cevs ++ [Select s; Search s]) st) = (st1, Ok tt) ->
  process_ids env rt s [email_id] st1 = (st2, Raise e) ->
  process_unread_emails env rt st
  = (emit [handler e; Logout s] st2, logout env s)
  /\ db (process_unread_emails env rt st).1 = db st1
  /\ exists logs,
       trace (process_unread_emails env rt st).1
       = trace st1 ++ Fetch s email_id :: logs ++ [handler e; Logout s]
       /\ forall ev, In ev logs -> exists l m, ev = Log l m.
Proof.
  intros Hc Hsel Hsearch Hsplit Hpre Hid.
  assert (Hne : split ids <> []) by (rewrite Hsplit; by destruct pre).
  assert (process_unread_emails env rt st
          = (emit [handler e; Logout s] st2, logout env s)) as Heq.
  { rewrite (process_unread_emails_loop env rt st s cevs ids more Hc Hsel Hsearch Hne).
    rewrite Hsplit, process_ids_app, Hpre.
    change (email_id :: post) with ([email_id] ++ post).
    by rewrite process_ids_app, Hid. }
  destruct (iteration_raise env rt s email_id st1 st2 e Hid) as (Hdb & logs & Htr & Hlogs).
  split; [done|]. rewrite Heq. simpl. split; [done|].
  exists logs. rewrite Htr, <- app_assoc. done.
Qed.

(** X12.  A message that does not normalise is not saved: when
    [process_email] returns [None] for a fetched message, the loop has
    written its one log line, leaves the collection as it is and goes
    on with the ids after it. *)
Theorem skipped_message_is_not_saved
    (env : Env) (rt : Runtime) (mail : session) (st : state)
    (email_id : list N) (rest : list (list N))
    (msg : list (option (list N * list N))) (raw : list N) :
  fetch env mail email_id = Ok (lit "OK", msg) ->
  raw_message msg = Ok raw ->
  (process_email rt (time_time env email_id) (message_from_bytes rt raw)).2 = None ->
  exists e line,
    (line = Log ERROR (ErrorProcessingMessage e)
     \/ line = Log WARNING (MalformedEmail e))
    /\ process_ids env rt mail (email_id :: rest) st
       = process_ids env rt mail rest (emit [Fetch mail email_id; line] st)
    /\ db (emit [Fetch mail email_id; line] st) = db st.
Proof.
  intros Hf Hraw Hnone. simpl. rewrite Hf, Hraw. simpl.
  unfold process_email in *.
  destruct (process_email_body rt (time_time env email_id) (message_from_bytes rt raw))
    as [d|e]; [done|].
  exists e. destruct (isinstance e KeyError).
  - exists (Log WARNING (MalformedEmail e)). split; [by right|].
    by rewrite emit_emit.
  - exists (Log ERROR (ErrorProcessingMessage e)). split; [by left|].
    by rewrite emit_emit.
Qed.

(** X13.  The loop composes: running it over a list of ids followed by
    another is running it over the first and, unless that raised, over
    the second from the state the first left; after an exception the
    second list is not touched. *)
Theorem process_ids_composes
    (env : Env) (rt : Runtime) (mail : session)
    (ids1 ids2 : list (list N)) (st : state) :
  process_ids env rt mail (ids1 ++ ids2) st
  = match process_ids env rt mail ids1 st with
    | (st1, Ok _) => process_ids env rt mail ids2 st1
    | (st1, Raise e) => (st1, Raise e)
    end.
Proof. apply process_ids_app. Qed.

(** ** More on connect_to_email_server *)

(** X14.  The log of the connection routine.  Every failed attempt
    writes exactly one error line, an "IMAP error" line for an
    [IMAP4.error] and an "Unexpected error" line for anything else,
    carrying the exception of that attempt; the retries announced are
    attempts 2 and 3 of 3; the success line is written when, and only
    when, a session is returned. *)
Theorem connect_log_lines (env : Env) :
  let evs := (connect_to_email_server env).1 in
  (forall k s, (k < 3)%nat -> first_success env k s ->
     length (List.filter is_error_line evs) = k
     /\ List.filter is_retry_line evs
        = map (fun j => Log INFO (RetryingConnection (j + 2) 3)) (seq 0 k)
     /\ In (Log INFO ConnectedToEmailServer) evs)
  /\ (all_fail env 3 ->
      length (List.filter is_error_line evs) = 3%nat
      /\ List.filter is_retry_line evs
         = [Log INFO (RetryingConnection 2 3); Log INFO (RetryingConnection 3 3)]
      /\ ~ In (Log INFO ConnectedToEmailServer) evs)
  /\ (forall m, In (Log ERROR m) evs ->
      exists j e, (j < 3)%nat /\ connect env j = Raise e
                  /\ Log ERROR m = attempt_error_line e)
  /\ (forall j e, (j < 3)%nat -> connect env j = Raise e ->
      (forall i, (i < j)%nat -> exists e', connect env i = Raise e') ->
      In (attempt_error_line e) evs).
Proof.
  cbv zeta. unfold connect_to_email_server, attempt_error_line.
  split; [|split; [|split]].
  - intros k s Hk [Hs Hfail].
    destruct k as [|[|[|k]]]; [| | |lia].
    + simpl. rewrite Hs. simpl. auto.
    + destruct (Hfail 0%nat ltac:(lia)) as [e0 H0].
      simpl. rewrite H0. simpl. rewrite Hs. simpl.
      split; [by destruct (isinstance e0 IMAP4_error)|]. split; [done|].
      do 5 right. by left.
    + destruct (Hfail 0%nat ltac:(lia)) as [e0 H0].
      destruct (Hfail 1%nat ltac:(lia)) as [e1 H1].
      simpl. rewrite H0. simpl. rewrite H1. simpl. rewrite Hs. simpl.
      split; [by destruct (isinstance e0 IMAP4_error), (isinstance e1 IMAP4_error)|].
      split; [done|]. do 9 right. by left.
  - intros Hfail.
    destruct (Hfail 0%nat ltac:(lia)) as [e0 H0].
    destruct (Hfail 1%nat ltac:(lia)) as [e1 H1].
    destruct (Hfail 2%nat ltac:(lia)) as [e2 H2].
    simpl. rewrite H0. simpl. rewrite H1. simpl. rewrite H2. simpl.
    split; [by destruct (isinstance e0 IMAP4_error), (isinstance e1 IMAP4_error),
                        (isinstance e2 IMAP4_error)|].
    split; [done|].
    intros Hin. repeat (destruct Hin as [Hin|Hin]; [discriminate|]). done.
  - intros m. simpl.
    destruct (connect env 0) as [s0|e0] eqn:H0; simpl.
    { intros Hin. repeat (destruct Hin as [Hin|Hin]; [discriminate|]). done. }
    destruct (connect env 1) as [s1|e1] eqn:H1; simpl.
    { intros Hin. repeat (destruct Hin as [Hin|Hin];
        [first [discriminate | exists 0%nat, e0; split; [lia|by split]]|]). done. }
    destruct (connect env 2) as [s2|e2] eqn:H2; simpl;
      intros Hin;
      repeat (destruct Hin as [Hin|Hin];
        [first [discriminate
               | exists 0%nat, e0; split; [lia|by split]
               | exists 1%nat, e1; split; [lia|by split]
               | exists 2%nat, e2; split; [lia|by split]]|]); done.
  - intros j e Hj He Hbefore. simpl.
    destruct j as [|[|[|j]]]; [| | |lia].
    + rewrite He. simpl. destruct (connect env 1); simpl; [right; by left|].
      destruct (connect env 2); simpl; right; by left.
    + destruct (Hbefore 0%nat ltac:(lia)) as [e0 H0].
      rewrite H0. simpl. rewrite He. simpl.
      destruct (connect env 2); simpl; do 5 right; by left.
    + destruct (Hbefore 0%nat ltac:(lia)) as [e0 H0].
      destruct (Hbefore 1%nat ltac:(lia)) as [e1 H1].
      rewrite H0. simpl. rewrite H1. simpl. rewrite He. simpl.
      do 9 right. by left.
Qed.


(** ** _setup_database and main *)

Lemma setup_body_raise config store c e :
  (setup_body config store c).2 = Raise e ->
  List.filter is_log_main (setup_body config store c).1 = [].
Proof.
  unfold setup_body. repeat case_match; simpl; done.
Qed.

(** X16.  The handlers of [_setup_database].  The method succeeds only
    after the client was made, the index declared and the ping answered,
    in this order, and then writes its one info line.  When a step
    raises, the exception leaves the method: with one "not reachable"
    line for a [ServerSelectionTimeoutError] (the first handler takes
    it, though it is a [PyMongoError] too), one "MongoDB error" line
    for any other [PyMongoError], and no line at all for anything else,
    such as the [KeyError] of a missing option.  The steps after the
    one that raised are not made: a missing URI means no call at all; a
    failure of the client, of the database or of a later lookup means
    the index is not declared and the ping not sent; a refused index
    means no ping; and the handler's line is the last thing done. *)
Theorem setup_database_handlers
    (config : string -> string -> result (list N)) (store : Store)
    (c : list (gmap string value)) :
  let evs := (_setup_database config store c).1 in
  let r := (_setup_database config store c).2 in
  let lines e :=
    if isinstance e ServerSelectionTimeoutError
    then [LogMain (Level ERROR) (MongoDBNotReachable e)]
    else if isinstance e PyMongoError
    then [LogMain (Level ERROR) (MongoDBError e)]
    else [] in
  (r = Ok tt ->
     exists uri database collection,
       config "Database" "mongodb_uri" = Ok uri
       /\ config "Database" "database" = Ok database
       /\ config "Database" "collection" = Ok collection
       /\ mongo_client store uri = Ok tt
       /\ get_database store database = Ok tt
       /\ create_index store collection c = Ok tt
       /\ ping store = Ok tt
       /\ evs = [MongoClient uri; CreateIndex collection; Ping;
                 LogMain (Level INFO) ConnectedToMongoDB])
  /\ (forall e, r = Raise e ->
        (setup_body config store c).2 = Raise e
        /\ ~ In (LogMain (Level INFO) ConnectedToMongoDB) evs
        /\ List.filter is_log_main evs = lines e)
  /\ (forall e, isinstance e ServerSelectionTimeoutError = true ->
        isinstance e PyMongoError = true)
  /\ (forall e, config "Database" "mongodb_uri" = Raise e ->
        r = Raise e /\ evs = lines e)
  /\ (forall uri e,
        config "Database" "mongodb_uri" = Ok uri ->
        mongo_client store uri = Raise e
        \/ (mongo_client store uri = Ok tt
            /\ (config "Database" "database" = Raise e
                \/ exists database,
                     config "Database" "database" = Ok database
                     /\ (get_database store database = Raise e
                         \/ (get_database store database = Ok tt
                             /\ config "Database" "collection" = Raise e)))) ->
        r = Raise e /\ evs = MongoClient uri :: lines e)
  /\ (forall uri database collection,
        config "Database" "mongodb_uri" = Ok uri ->
        mongo_client store uri = Ok tt ->
        config "Database" "database" = Ok database ->
        get_database store database = Ok tt ->
        config "Database" "collection" = Ok collection ->
        (forall e, create_index store collection c = Raise e ->
           r = Raise e
           /\ evs = [MongoClient uri; CreateIndex collection] ++ lines e)
        /\ (forall e, create_index store collection c = Ok tt ->
              ping store = Raise e ->
              r = Raise e
              /\ evs = [MongoClient uri; CreateIndex collection; Ping] ++ lines e)).
Proof.
  cbv zeta.
  split; [|split; [|split; [|split; [|split]]]].
  - unfold _setup_database, setup_body.
    destruct (config "Database" "mongodb_uri") as [uri|e] eqn:H1;
      [|by repeat case_match].
    destruct (mongo_client store uri) as [[]|e] eqn:H2; [|by repeat case_match].
    destruct (config "Database" "database") as [database|e] eqn:H3;
      [|by repeat case_match].
    destruct (get_database store database) as [[]|e] eqn:H4;
      [|by repeat case_match].
    destruct (config "Database" "collection") as [collection|e] eqn:H5;
      [|by repeat case_match].
    destruct (create_index store collection c) as [[]|e] eqn:H6;
      [|by repeat case_match].
    destruct (ping store) as [[]|e] eqn:H7; [|by repeat case_match].
    intros _. exists uri, database, collection. done.
  - unfold _setup_database. intros e.
    pose proof (setup_body_raise config store c) as Hbody.
    destruct (setup_body config store c) as [evs0 [[]|e0]]; [done|].
    specialize (Hbody e0 eq_refl). simpl in Hbody.
    assert (~ In (LogMain (Level INFO) ConnectedToMongoDB) evs0) as Hno.
    { intros Hin.
      assert (In (LogMain (Level INFO) ConnectedToMongoDB)
                (List.filter is_log_main evs0)) as Hin'
        by (apply filter_In; by split).
      by rewrite Hbody in Hin'. }
    destruct (isinstance e0 ServerSelectionTimeoutError) eqn:H1;
      [|destruct (isinstance e0 PyMongoError) eqn:H2];
      simpl; intros [= <-]; rewrite ?H1, ?H2; (split; [done|]);
      rewrite ?List.filter_app, ?Hbody; (split; [|done]);
      rewrite ?in_app_iff; intros Hin; try done;
      destruct Hin as [Hin|[Hin|[]]]; done.
  - intros [[] t]; done.
  - intros e H1. unfold _setup_database, setup_body. rewrite H1.
    by repeat case_match.
  - intros uri e H1 Hstep. unfold _setup_database, setup_body. rewrite H1.
    destruct Hstep as [H2|[H2 [H3|(database & H3 & [H4|[H4 H5]])]]];
      rewrite ?H2, ?H3, ?H4, ?H5; by repeat case_match.
  - intros uri database collection H1 H2 H3 H4 H5.
    unfold _setup_database, setup_body. rewrite H1, H2, H3, H4, H5.
    split.
    + intros e H6. rewrite H6. by repeat case_match.
    + intros e H6 H7. rewrite H6, H7. by repeat case_match.
Qed.

Lemma setup_database_events config store c :
  List.filter is_in_sweep (_setup_database config store c).1 = []
  /\ List.filter is_critical (_setup_database config store c).1 = []
  /\ ((_setup_database config store c).2 = Ok tt ->
      exists collection, create_index store collection c = Ok tt).
Proof.
  unfold _setup_database, setup_body.
  destruct (config "Database" "mongodb_uri") as [uri|e]; [|by repeat case_match].
  destruct (mongo_client store uri) as [[]|e]; [|by repeat case_match].
  destruct (config "Database" "database") as [database|e]; [|by repeat case_match].
  destruct (get_database store database) as [[]|e]; [|by repeat case_match].
  destruct (config "Database" "collection") as [collection|e]; [|by repeat case_match].
  destruct (create_index store collection c) as [[]|e] eqn:Hci; [|by repeat case_match].
  destruct (ping store) as [[]|e]; [|by repeat case_match].
  simpl. eauto.
Qed.

Lemma filter_in_sweep_map evs :
  List.filter is_in_sweep (map InSweep evs) = map InSweep evs
  /\ List.filter is_critical (map InSweep evs) = [].
Proof. induction evs as [|ev evs [IH1 IH2]]; simpl; [done|]. by rewrite IH1. Qed.

Lemma connect_trace_nonempty env : (connect_to_email_server env).1 <> [].
Proof.
  unfold connect_to_email_server. simpl.
  destruct (connect env 0); simpl; [done|].
  destruct (connect env 1); simpl; [done|].
  destruct (connect env 2); done.
Qed.

Lemma process_unread_emails_trace env rt st :
  exists rest,
    trace (process_unread_emails env rt st).1
    = trace st ++ (connect_to_email_server env).1 ++ rest.
Proof.
  unfold process_unread_emails.
  destruct (connect_to_email_server env) as [cevs [mail|e]]; simpl.
  2:{ exists [handler e]. by rewrite app_assoc. }
  destruct (sweep_trace env rt mail (emit cevs st)) as (evs & Hevs & _).
  destruct (sweep env rt mail (emit cevs st)) as [st1 r1]. simpl in Hevs.
  destruct mail as [s|]; destruct r1 as [[]|e]; simpl; rewrite Hevs;
    rewrite <- ?app_assoc; eauto.
Qed.

Lemma sweep_trace_nonempty env rt c :
  trace (process_unread_emails env rt (State c [])).1 <> [].
Proof.
  destruct (process_unread_emails_trace env rt (State c [])) as [rest ->].
  simpl. pose proof (connect_trace_nonempty env).
  by destruct (connect_to_email_server env).1.
Qed.

(** X17.  [main] sweeps only after a successful start-up.  Events of the
    sweep occur exactly when reading the configuration and
    [_setup_database] both succeeded; when either raises, no connection
    to the mail server is attempted, the collection is left as it is,
    and the exception ends as the one critical line, the last thing
    [main] does. *)
Theorem main_sweeps_only_after_setup
    (w : World) (rt : Runtime) (c : list (gmap string value)) :
  let evs := (main w rt c).2 in
  (List.filter is_in_sweep evs <> []
   <-> read_config w = Ok tt
       /\ (_setup_database (config_of w) (store w) c).2 = Ok tt)
  /\ (forall e,
        read_config w = Raise e
        \/ (read_config w = Ok tt
            /\ (_setup_database (config_of w) (store w) c).2 = Raise e) ->
        (main w rt c).1 = c
        /\ List.filter is_in_sweep evs = []
        /\ List.filter is_critical evs = [LogMain CRITICAL (CriticalError e)]
        /\ last evs = Some (LogMain CRITICAL (CriticalError e))).
Proof.
  cbv zeta. unfold main.
  destruct (setup_database_events (config_of w) (store w) c) as (Hsw & Hcr & _).
  destruct (read_config w) as [[]|e0].
  2:{ split; [split; [done|by intros []]|].
      intros e [[= <-]|[? _]]; done. }
  destruct (_setup_database (config_of w) (store w) c) as [sevs [[]|e0]];
    simpl in Hsw, Hcr.
  - pose proof (sweep_trace_nonempty
      (with_config (config_of w) (network w) (servers w)) rt c) as Hne.
    destruct (process_unread_emails _ rt (State c [])) as [st r]. simpl in *.
    split; [|by intros e [|[_ ?]]].
    split; [done|]. intros _.
    rewrite !List.filter_app, Hsw, (proj1 (filter_in_sweep_map (trace st))).
    simpl. destruct (trace st); [done|]. done.
  - simpl. split.
    + split; [|by intros [_ ?]].
      rewrite List.filter_app, Hsw. done.
    + intros e [|[_ [= <-]]]; [done|].
      rewrite !List.filter_app, Hsw, Hcr, last_cons, last_snoc. done.
Qed.

(** X18.  What reaches [main] from the sweep.  After a successful
    start-up the collection [main] leaves is the one the sweep leaves;
    the sweep ends with an exception only when a session was opened and
    its logout raised, and [main] then logs that exception as its one
    critical line; in every other run no critical line is written. *)
Theorem main_catches_the_logout
    (w : World) (rt : Runtime) (c : list (gmap string value)) :
  read_config w = Ok tt ->
  (_setup_database (config_of w) (store w) c).2 = Ok tt ->
  (main w rt c).1 = db (sweep_of_main w rt c).1
  /\ List.filter is_critical (main w rt c).2
     = match (sweep_of_main w rt c).2 with
       | Ok _ => []
       | Raise e => [LogMain CRITICAL (CriticalError e)]
       end
  /\ (forall e, (sweep_of_main w rt c).2 = Raise e <->
        exists s,
          (connect_to_email_server
             (with_config (config_of w) (network w) (servers w))).2 = Ok (Some s)
          /\ logout (servers w) s = Raise e).
Proof.
  intros Hread Hsetup. unfold main, sweep_of_main. rewrite Hread.
  destruct (setup_database_events (config_of w) (store w) c) as (_ & Hcr & _).
  destruct (_setup_database (config_of w) (store w) c) as [sevs r0].
  simpl in Hsetup, Hcr. subst r0.
  set (env := with_config (config_of w) (network w) (servers w)).
  destruct (process_unread_emails_logout env rt (State c [])) as [Hopen Hclosed].
  pose proof (connect_returns_session env) as Hsome.
  destruct (process_unread_emails env rt (State c [])) as [st r]. simpl in *.
  split; [done|]. split.
  - rewrite !List.filter_app, Hcr, (proj2 (filter_in_sweep_map (trace st))).
    by destruct r as [[]|e].
  - intros e. destruct (connect_to_email_server env).2 as [[s|]|e0]; [| done |].
    + destruct (Hopen s eq_refl) as (_ & _ & ->). split.
      * intros H. exists s. done.
      * intros (s' & [= <-] & H). done.
    + destruct (Hclosed e0 eq_refl) as [_ ->]. split; [done|].
      intros (s' & ? & _). done.
Qed.

(** X19.  No duplicates at the end of a run.  If the server declares
    the unique index only on a collection without two documents of the
    same [message_id], then whenever [main] gets to the sweep the
    collection it started on and the collection it leaves both respect
    the index: a [find] by [message_id] returns at most one document. *)
Theorem main_keeps_unique_index
    (w : World) (rt : Runtime) (c : list (gmap string value)) :
  (forall collection docs,
     create_index (store w) collection docs = Ok tt -> unique_index docs) ->
  List.filter is_in_sweep (main w rt c).2 <> [] ->
  unique_index c
  /\ unique_index (main w rt c).1
  /\ forall id, (length (find id (main w rt c).1) <= 1)%nat.
Proof.
  intros Hserver. unfold main.
  destruct (setup_database_events (config_of w) (store w) c) as (Hsw & _ & Hok).
  destruct (read_config w) as [[]|e0]; [|done].
  destruct (_setup_database (config_of w) (store w) c) as [sevs [[]|e0]];
    simpl in Hsw, Hok.
  2:{ simpl. rewrite List.filter_app, Hsw. done. }
  intros _. destruct (Hok eq_refl) as [collection Hci].
  assert (unique_index c) as Hu by by eapply Hserver.
  destruct (process_unread_emails_upserts
              (with_config (config_of w) (network w) (servers w)) rt (State c []))
    as (ws & Hws & _).
  destruct (process_unread_emails _ rt (State c [])) as [st r]. simpl in *.
  assert (unique_index (db st)) as Hu' by (rewrite Hws; by apply upserts_keep).
  split; [done|]. split; [done|]. intros id. by apply find_unique.
Qed.

Lemma upserts_stored ws c id :
  stored id (fold_left upsert ws c)
  <-> stored id c \/ exists w, In w ws /\ message_id w.1 = id.
Proof.
  revert c. induction ws as [|[d now] ws IH]; intros c; simpl.
  { split; [by left|]. intros [H|(w & [] & _)]. done. }
  rewrite IH. unfold upsert at 1. simpl.
  rewrite !stored_iff, (update_one_keys _ _ c _ (email_dict_key d now)).
  split.
  - intros [[H|[= ->]]|(w & Hin & Hw)]; [by left| |].
    + right. exists (d, now). split; [by left|done].
    + right. exists w. split; [by right|done].
  - intros [H|(w & [<-|Hin] & Hw)].
    + left. by left.
    + left. right. simpl in Hw. by rewrite Hw.
    + right. by exists w.
Qed.

Lemma upserts_length ws c :
  (forall w, In w ws -> stored (message_id w.1) c) ->
  length (fold_left upsert ws c) = length c.
Proof.
  revert c. induction ws as [|[d now] ws IH]; intros c Hall; simpl; [done|].
  assert (stored (message_id d) c) as Hd by (apply (Hall (d, now)); by left).
  rewrite IH.
  - unfold upsert, update_one. simpl.
    destruct (set_first (message_id d) (email_dict d now) c) as [c'|] eqn:Hs.
    + by apply length_set_first in Hs.
    + apply set_first_none in Hs. by destruct Hd.
  - intros w Hin.
    apply (upserts_stored [(d, now)] c (message_id w.1)). left.
    apply (Hall w). by right.
Qed.

(** X20.  A sweep stores what it was shown and nothing else: a
    [message_id] that has a document after the sweep had one before, or
    is the id of the record that one of the listed ids normalises to
    and whose update the server acknowledged.  So a sweep over messages
    that are all in the collection already (the same mailbox swept
    again) adds no document. *)
Theorem sweep_adds_only_listed_messages (env : Env) (rt : Runtime) (st : state) :
  (forall id, stored id (db (process_unread_emails env rt st).1) ->
     stored id (db st)
     \/ exists s email_id r,
          (connect_to_email_server env).2 = Ok (Some s)
          /\ In email_id (listed env s)
          /\ normalized env rt s email_id = Some r
          /\ update_reply env email_id = None
          /\ message_id r = id)
  /\ ((forall s email_id r,
         (connect_to_email_server env).2 = Ok (Some s) ->
         In email_id (listed env s) ->
         normalized env rt s email_id = Some r ->
         stored (message_id r) (db st)) ->
      length (db (process_unread_emails env rt st).1) = length (db st)).
Proof.
  destruct (process_unread_emails_upserts env rt st) as (ws & Hws & Hall & _).
  rewrite Hws. rewrite Forall_forall in Hall. split.
  - intros id Hid. apply upserts_stored in Hid as [H|(w & Hin & Hw)]; [by left|].
    right. apply list_elem_of_In, Hall in Hin as (s & email_id & Hc & Hl & Hn & Hr & _).
    by exists s, email_id, w.1.
  - intros Hknown. apply upserts_length. intros w Hin.
    apply list_elem_of_In, Hall in Hin as (s & email_id & Hc & Hl & Hn & _).
    by apply (Hknown s email_id).
Qed.

(** ** The further properties at the examples *)

Section MoreWitnesses.
Import Examples MoreExamples.

(** A sweep over three messages, on a collection that holds one
    document, leaves a collection that respects the index. *)
Lemma sweep_keeps_unique_index_witness :
  unique_index (db one_document)
  /\ unique_index (db (process_unread_emails second_refused runtime one_document).1)
  /\ forall id,
       (length (find id (db (process_unread_emails second_refused runtime
                               one_document).1)) <= 1)%nat.
Proof.
  assert (unique_index (db one_document)) as Hu.
  { unfold unique_index. apply (bool_decide_unpack _). vm_compute. exact I. }
  split; [exact Hu|].
  exact (sweep_keeps_unique_index second_refused runtime one_document Hu).
Defined.

(** The draft and the final version have one [message_id]: after both
    saves the collection is what the save of the final version alone
    leaves. *)
Lemma save_to_database_last_wins_witness :
  message_id first_version = message_id second_version
  /\ db (save_to_database (Datetime 20) None second_version
           (save_to_database (Datetime 10) None first_version one_document).1).1
     = db (save_to_database (Datetime 20) None second_version one_document).1.
Proof.
  assert (message_id first_version = message_id second_version) as Hid
    by reflexivity.
  split; [exact Hid|].
  exact (proj1 (save_to_database_last_wins (Datetime 10) (Datetime 20)
                  first_version second_version one_document Hid)).
Defined.

(** The collection holds another message: the save appends. *)
Lemma save_to_database_inserts_witness :
  ~ stored (message_id second_version) (db one_document)
  /\ db (save_to_database (Datetime 20) None second_version one_document).1
     = db one_document ++ [email_dict second_version (Datetime 20)].
Proof.
  assert (~ stored (message_id second_version) (db one_document)) as Hfresh.
  { unfold stored. intros Hs. apply Hs. vm_compute. reflexivity. }
  split; [exact Hfresh|].
  exact (proj1 (save_to_database_inserts (Datetime 20) second_version
                  one_document Hfresh)).
Defined.

(** A message with all four headers. *)
Lemma process_email_record_witness :
  process_email runtime clock dated = ([], Some dated_record)
  /\ sender dated_record
     = (parseaddr runtime (default [] (get dated (lit "from")))).2
  /\ exists secs,
       timestamp_of runtime (timestamp dated_record) = Ok secs
       /\ message_id dated_record
          = default (lit "NO_ID_" ++ float_str runtime secs)
              (get dated (lit "message-id")).
Proof.
  assert (process_email runtime clock dated = ([], Some dated_record)) as Hrun
    by (vm_compute; reflexivity).
  split; [exact Hrun|].
  pose proof (process_email_record runtime clock dated [] dated_record Hrun)
    as Hrec.
  split.
  - exact (proj1 (proj2 Hrec)).
  - exact (proj2 (proj2 (proj2 (proj2 Hrec)))).
Defined.

(** The date of [dated] parses: the clock reading does not matter. *)
Lemma process_email_ignores_clock_witness :
  parsedate_tz runtime (get dated (lit "date"))
  = Some (DateTuple 2024 1 1 0 0 0 0)
  /\ process_email runtime clock dated = process_email runtime (Float 0) dated.
Proof.
  assert (parsedate_tz runtime (get dated (lit "date"))
          = Some (DateTuple 2024 1 1 0 0 0 0)) as Hdate
    by (vm_compute; reflexivity).
  split; [exact Hdate|].
  exact (process_email_ignores_clock runtime clock (Float 0) dated _ Hdate).
Defined.

(** The search answers with one blank. *)
Lemma no_unread_emails_witness :
  process_unread_emails nothing_unread runtime one_document
  = (emit [Connect 0; Log INFO ConnectedToEmailServer;
           Select (Session 0); Search (Session 0);
           Log INFO NoUnreadEmails; Logout (Session 0)] one_document,
     Ok tt)
  /\ db (process_unread_emails nothing_unread runtime one_document).1
     = db one_document.
Proof.
  assert (connect_to_email_server nothing_unread
          = ([Connect 0; Log INFO ConnectedToEmailServer], Ok (Some (Session 0))))
    as Hconn by (vm_compute; reflexivity).
  assert (select nothing_unread (Session 0) = Ok tt) as Hsel by reflexivity.
  assert (search nothing_unread (Session 0) = Ok (lit "OK", [Some (lit " ")]))
    as Hsearch by reflexivity.
  assert (Forall (fun x => is_space x = true) (lit " ")) as Hblank.
  { replace (lit " ") with [32] by reflexivity.
    apply Forall_cons_2; [reflexivity|apply Forall_nil_2]. }
  exact (no_unread_emails nothing_unread runtime one_document (Session 0)
           _ _ _ Hconn Hsel Hsearch Hblank).
Defined.

(** The mail server does not answer. *)
Lemma unreachable_server_ends_sweep_witness :
  all_fail down 3
  /\ (process_unread_emails down runtime one_document).2 = Ok tt
  /\ db (process_unread_emails down runtime one_document).1 = db one_document.
Proof.
  assert (all_fail down 3) as Hdown.
  { intros j _. exists (Exn OSError (lit "timed out")). reflexivity. }
  split; [exact Hdown|].
  pose proof (unreachable_server_ends_sweep down runtime one_document Hdown)
    as Hsweep.
  cbv zeta in Hsweep.
  split.
  - exact (f_equal snd (proj1 Hsweep)).
  - exact (proj1 (proj2 Hsweep)).
Defined.

(** The connection drops at the second of three fetches: the first
    message is stored, the third is not fetched. *)
Lemma exception_in_loop_ends_sweep_witness :
  let st0 := emit [Connect 0; Log INFO ConnectedToEmailServer;
                   Select (Session 0); Search (Session 0)] empty in
  let st1 := (process_ids fetch_drops runtime (Session 0) [lit "1"] st0).1 in
  let st2 := (process_ids fetch_drops runtime (Session 0) [lit "2"] st1).1 in
  process_unread_emails fetch_drops runtime empty
  = (emit [handler connection_lost; Logout (Session 0)] st2, Ok tt)
  /\ db (process_unread_emails fetch_drops runtime empty).1 = db st1.
Proof.
  intros st0 st1 st2.
  assert (connect_to_email_server fetch_drops
          = ([Connect 0; Log INFO ConnectedToEmailServer], Ok (Some (Session 0))))
    as Hconn by (vm_compute; reflexivity).
  assert (select fetch_drops (Session 0) = Ok tt) as Hsel by reflexivity.
  assert (search fetch_drops (Session 0) = Ok (lit "OK", [Some (lit "1 2 3")]))
    as Hsearch by reflexivity.
  assert (split (lit "1 2 3") = [lit "1"] ++ lit "2" :: [lit "3"]) as Hsplit
    by (vm_compute; reflexivity).
  assert (process_ids fetch_drops runtime (Session 0) [lit "1"]
            (emit ([Connect 0; Log INFO ConnectedToEmailServer]
                   ++ [Select (Session 0); Search (Session 0)]) empty)
          = (st1, Ok tt)) as Hpre by (vm_compute; reflexivity).
  assert (process_ids fetch_drops runtime (Session 0) [lit "2"] st1
          = (st2, Raise connection_lost)) as Hat by (vm_compute; reflexivity).
  pose proof (exception_in_loop_ends_sweep fetch_drops runtime empty st1 st2
                (Session 0) _ _ _ _ _ _ _
                Hconn Hsel Hsearch Hsplit Hpre Hat) as Hsweep.
  split.
  - exact (proj1 Hsweep).
  - exact (proj1 (proj2 Hsweep)).
Defined.

(** The second message has a subject that does not decode: one error
    line, nothing saved, the third message is next. *)
Lemma skipped_message_is_not_saved_witness :
  (process_email runtime (time_time second_undecodable (lit "2"))
     (message_from_bytes runtime bad_raw)).2 = None
  /\ exists e line,
       (line = Log ERROR (ErrorProcessingMessage e)
        \/ line = Log WARNING (MalformedEmail e))
       /\ process_ids second_undecodable runtime (Session 0)
            [lit "2"; lit "3"] one_document
          = process_ids second_undecodable runtime (Session 0) [lit "3"]
              (emit [Fetch (Session 0) (lit "2"); line] one_document)
       /\ db (emit [Fetch (Session 0) (lit "2"); line] one_document)
          = db one_document.
Proof.
  assert (fetch second_undecodable (Session 0) (lit "2")
          = Ok (lit "OK", [Some (lit "2 (RFC822 {70}", bad_raw)])) as Hfetch
    by (vm_compute; reflexivity).
  assert (raw_message [Some (lit "2 (RFC822 {70}", bad_raw)] = Ok bad_raw)
    as Hraw by reflexivity.
  assert ((process_email runtime (time_time second_undecodable (lit "2"))
             (message_from_bytes runtime bad_raw)).2 = None) as Hskip
    by (vm_compute; reflexivity).
  split; [exact Hskip|].
  exact (skipped_message_is_not_saved second_undecodable runtime (Session 0)
           one_document (lit "2") [lit "3"] _ _ Hfetch Hraw Hskip).
Defined.


(** The connection is lost before the logout: the three messages are
    stored and [main] writes the critical line. *)
Lemma main_catches_the_logout_witness :
  let w := world live_store logout_fails in
  (main w runtime []).1 = db (sweep_of_main w runtime []).1
  /\ (sweep_of_main w runtime []).2 = Raise connection_lost
  /\ List.filter is_critical (main w runtime []).2
     = match (sweep_of_main w runtime []).2 with
       | Ok _ => []
       | Raise e => [LogMain CRITICAL (CriticalError e)]
       end.
Proof.
  intros w.
  assert (read_config w = Ok tt) as Hread by reflexivity.
  assert ((_setup_database (config_of w) (store w) []).2 = Ok tt) as Hsetup
    by (vm_compute; reflexivity).
  pose proof (main_catches_the_logout w runtime [] Hread Hsetup) as Hmain.
  split; [exact (proj1 Hmain)|].
  split; [vm_compute; reflexivity|].
  exact (proj1 (proj2 Hmain)).
Defined.

(** A store that declares the index only without duplicates, and a run
    that gets to the sweep. *)
Lemma main_keeps_unique_index_witness :
  let w := world live_store second_refused in
  List.filter is_in_sweep (main w runtime []).2 <> []
  /\ unique_index (main w runtime []).1
  /\ forall id, (length (find id (main w runtime []).1) <= 1)%nat.
Proof.
  intros w.
  assert (forall collection docs,
            create_index (store w) collection docs = Ok tt -> unique_index docs)
    as Hindex.
  { intros collection docs. unfold w, world, live_store, unique_index. simpl.
    destruct (decide (NoDup (map key_of docs))) as [Hn|Hn]; [auto|discriminate]. }
  assert (List.filter is_in_sweep (main w runtime []).2 <> []) as Hswept.
  { vm_compute. discriminate. }
  split; [exact Hswept|].
  exact (proj2 (main_keeps_unique_index w runtime [] Hindex Hswept)).
Defined.

End MoreWitnesses.
